(** * Conversion-job pipeline of the Adocs Hub backend

    A shallow embedding of the Convex functions that create, read, patch,
    run and reap conversion jobs (files.ts, conversion.ts, crons.ts and
    schema.ts), with the properties of the job store, the strategy chains
    and the expiry sweep proved about it. *)

From Stdlib Require Import ZArith String List Bool Lia DecimalString.
From stdpp Require Import gmap strings list.

Local Open Scope Z_scope.

(** ** Results and the state-and-exception monad of a function run *)

(** A JavaScript call either returns a value or throws; only the message of
    the thrown error is observed by the code. *)
Inductive Result (A : Type) : Type :=
| Ok (a : A)
| Throw (msg : string).
Arguments Ok {A} a.
Arguments Throw {A} msg.

Definition isOk {A} (r : Result A) : bool :=
  match r with Ok _ => true | Throw _ => false end.

(** A computation over a state [S] that may throw.  A throw keeps the state
    reached so far: nothing is rolled back unless [transaction] says so. *)
Definition M (S A : Type) : Type := S -> Result A * S.

Definition ret {S A} (a : A) : M S A := fun s => (Ok a, s).
Definition throw {S A} (msg : string) : M S A := fun s => (Throw msg, s).
Definition bind {S A B} (m : M S A) (k : A -> M S B) : M S B :=
  fun s => match m s with
           | (Ok a, s') => k a s'
           | (Throw e, s') => (Throw e, s')
           end.
Definition try_catch {S A} (m : M S A) (handler : string -> M S A) : M S A :=
  fun s => match m s with
           | (Ok a, s') => (Ok a, s')
           | (Throw e, s') => handler e s'
           end.
Definition gets {S A} (f : S -> A) : M S A := fun s => (Ok (f s), s).
Definition modify {S} (f : S -> S) : M S unit := fun s => (Ok tt, f s).

(** A Convex mutation is a transaction: when it throws, none of its writes
    is kept. *)
Definition transaction {S A} (m : M S A) : M S A :=
  fun s => match m s with
           | (Ok a, s') => (Ok a, s')
           | (Throw e, _) => (Throw e, s)
           end.

Declare Scope run_scope.
Delimit Scope run_scope with run.
Notation "'let*' x ':=' m 'in' k" := (bind m (fun x => k))
  (at level 10, x name, m at level 100, k at level 200) : run_scope.
Notation "m1 ';;' m2" := (bind m1 (fun _ => m2))
  (at level 100, m2 at level 200, right associativity) : run_scope.

(** ** Data model (schema.ts) *)

(** Ids of stored files and of table documents.  At run time they are
    non-empty strings, hence always truthy; only their identity matters
    here. *)
Definition StorageId := nat.
Definition ConversionId := nat.

Inductive ConversionType := pdf_to_word | image_to_pdf | pdf_merger.
Inductive Status := pending | processing | completed | failed.

#[global] Instance ConversionType_eq_dec : EqDecision ConversionType.
Proof. solve_decision. Defined.
#[global] Instance Status_eq_dec : EqDecision Status.
Proof. solve_decision. Defined.

(** A document of the [conversions] table.  Optional schema fields are
    options; [None] is an absent field. *)
Record Conversion := {
  _id : ConversionId;
  userId : string;
  status : Status;
  type : ConversionType;
  pdfFileId : option StorageId;
  docxFileId : option StorageId;
  fileName : string;
  error : option string;
  createdAt : Z;
  updatedAt : Z;
  expiresAt : Z;
  sourceFileIds : option (list StorageId);
  completedAt : option Z
}.

(** The partial document handed to [ctx.db.patch]: one optional entry per
    schema field, [None] when the caller's object literal has no such key. *)
Record PartialFields := {
  p_userId : option string;
  p_status : option Status;
  p_type : option ConversionType;
  p_pdfFileId : option StorageId;
  p_docxFileId : option StorageId;
  p_fileName : option string;
  p_error : option string;
  p_createdAt : option Z;
  p_updatedAt : option Z;
  p_expiresAt : option Z;
  p_sourceFileIds : option (list StorageId);
  p_completedAt : option Z
}.

(** ** Documents and blobs *)

(** What the PDF libraries put on a page: text, or an embedded image. *)
Inductive PageOp :=
| DrawText (x y size : Z) (text : string)
| DrawImage (image : nat).

Definition Page := list PageOp.

(** The content of a stored blob, as far as the libraries that read it can
    tell: a PDF that opens (with its pages), a Word document, image data, or
    bytes that no PDF reader can open. *)
Inductive Bytes :=
| PdfBytes (pages : list Page)
| DocxBytes (source : list Page)
| ImageBytes (image : nat)
| Corrupt (tag : nat).

(** The detached tasks that a creation mutation hands to the scheduler. *)
Inductive Task :=
| convertPdfToWordTask (conversionId : ConversionId)
| convertImagesToPdfTask (conversionId : ConversionId)
| mergePdfFilesTask (conversionId : ConversionId).

(** The deployment's state: the [conversions] table in insertion order, the
    file storage, the id counters and the scheduler queue. *)
Record World := {
  conversions : list Conversion;
  nextConversionId : nat;
  files : gmap StorageId Bytes;
  nextStorageId : nat;
  scheduled : list Task
}.

Definition with_conversions (cs : list Conversion) (w : World) : World :=
  {| conversions := cs; nextConversionId := nextConversionId w;
     files := files w; nextStorageId := nextStorageId w;
     scheduled := scheduled w |}.

Definition with_files (fs : gmap StorageId Bytes) (w : World) : World :=
  {| conversions := conversions w; nextConversionId := nextConversionId w;
     files := fs; nextStorageId := nextStorageId w;
     scheduled := scheduled w |}.

(** What a function's context supplies: the caller's identity as
    [getAuthUserId] resolves it, and the clock. *)
Record Ctx := {
  auth : option string;
  now : Z
}.

(** JavaScript truthiness of [string | null]: null and the empty string are
    falsy. *)
Definition truthy (v : option string) : option string :=
  match v with
  | Some EmptyString => None
  | Some s => Some s
  | None => None
  end.

Definition string_of_nat (n : nat) : string :=
  NilZero.string_of_uint (Nat.to_uint n).

(** ** The database and storage interfaces (ctx.db, ctx.storage) *)

Definition db_get (id : ConversionId) (w : World) : option Conversion :=
  List.find (fun c => Nat.eqb (_id c) id) (conversions w).

Definition override {A} (supplied : option A) (old : A) : A :=
  match supplied with Some v => v | None => old end.

Definition override_opt {A} (supplied : option A) (old : option A) : option A :=
  match supplied with Some v => Some v | None => old end.

(** The shallow merge that [ctx.db.patch] performs on one document. *)
Definition applyPatch (p : PartialFields) (c : Conversion) : Conversion :=
  {| _id := _id c;
     userId := override (p_userId p) (userId c);
     status := override (p_status p) (status c);
     type := override (p_type p) (type c);
     pdfFileId := override_opt (p_pdfFileId p) (pdfFileId c);
     docxFileId := override_opt (p_docxFileId p) (docxFileId c);
     fileName := override (p_fileName p) (fileName c);
     error := override_opt (p_error p) (error c);
     createdAt := override (p_createdAt p) (createdAt c);
     updatedAt := override (p_updatedAt p) (updatedAt c);
     expiresAt := override (p_expiresAt p) (expiresAt c);
     sourceFileIds := override_opt (p_sourceFileIds p) (sourceFileIds c);
     completedAt := override_opt (p_completedAt p) (completedAt c) |}.

(** [ctx.db.patch(id, fields)]: throws when the document does not exist. *)
Definition db_patch (id : ConversionId) (p : PartialFields) : M World unit :=
  fun w =>
    match db_get id w with
    | None => (Throw "Update on nonexistent document ID", w)
    | Some _ =>
        (Ok tt,
         with_conversions
           (map (fun c => if Nat.eqb (_id c) id then applyPatch p c else c)
                (conversions w)) w)
    end.

(** [ctx.db.insert("conversions", doc)]: the table assigns the id. *)
Definition db_insert (doc : ConversionId -> Conversion) : M World ConversionId :=
  fun w =>
    let id := nextConversionId w in
    (Ok id,
     {| conversions := conversions w ++ [doc id];
        nextConversionId := S id;
        files := files w; nextStorageId := nextStorageId w;
        scheduled := scheduled w |}).

(** [ctx.db.delete(id)]: throws when the document does not exist. *)
Definition db_delete (id : ConversionId) : M World unit :=
  fun w =>
    match db_get id w with
    | None => (Throw "Delete on nonexistent document ID", w)
    | Some _ =>
        (Ok tt,
         with_conversions
           (List.filter (fun c => negb (Nat.eqb (_id c) id)) (conversions w)) w)
    end.

Definition storageUrl (id : StorageId) : string :=
  "https://files.convex.cloud/api/storage/" +:+ string_of_nat id.

(** [ctx.storage.getUrl(id)]: null when no such file is stored. *)
Definition storage_getUrl (w : World) (id : StorageId) : option string :=
  match files w !! id with
  | Some _ => Some (storageUrl id)
  | None => None
  end.

(** [ctx.storage.store(blob)]. *)
Definition storage_store (b : Bytes) : M World StorageId :=
  fun w =>
    let id := nextStorageId w in
    (Ok id,
     {| conversions := conversions w; nextConversionId := nextConversionId w;
        files := <[id := b]> (files w); nextStorageId := S id;
        scheduled := scheduled w |}).

(** [ctx.storage.delete(id)]: throws when no such file is stored. *)
Definition storage_delete (id : StorageId) : M World unit :=
  fun w =>
    match files w !! id with
    | None => (Throw "storage id not found", w)
    | Some _ => (Ok tt, with_files (delete id (files w)) w)
    end.

(** [ctx.scheduler.runAfter(0, task, args)]. *)
Definition scheduler_runAfter (t : Task) : M World unit :=
  modify (fun w =>
    {| conversions := conversions w; nextConversionId := nextConversionId w;
       files := files w; nextStorageId := nextStorageId w;
       scheduled := scheduled w ++ [t] |}).

(** ** files.ts: job creation, reading and patching *)

Local Open Scope run_scope.

(** The document that the three creation mutations insert: created already
    [processing], expiring one hour after creation. *)
Definition newConversion (uid : string) (ty : ConversionType)
    (pdf : option StorageId) (sources : option (list StorageId))
    (name : string) (t : Z) (id : ConversionId) : Conversion :=
  {| _id := id; userId := uid; status := processing; type := ty;
     pdfFileId := pdf; docxFileId := None; fileName := name; error := None;
     createdAt := t; updatedAt := t; expiresAt := t + 60 * 60 * 1000;
     sourceFileIds := sources; completedAt := None |}.

Definition startConversion (ctx : Ctx) (pdfFileId : StorageId)
    (fileName : string) : M World ConversionId :=
  transaction
    match truthy (auth ctx) with
    | None => throw "Not authenticated"
    | Some uid =>
        let* conversionId :=
          db_insert (newConversion uid pdf_to_word (Some pdfFileId) None
                                   fileName (now ctx)) in
        scheduler_runAfter (convertPdfToWordTask conversionId) ;;
        ret conversionId
    end.

Definition startImageToPdfConversion (ctx : Ctx) (sourceFileIds : list StorageId)
    (fileName : string) : M World ConversionId :=
  transaction
    match truthy (auth ctx) with
    | None => throw "Not authenticated"
    | Some uid =>
        let* conversionId :=
          db_insert (newConversion uid image_to_pdf None (Some sourceFileIds)
                                   fileName (now ctx)) in
        scheduler_runAfter (convertImagesToPdfTask conversionId) ;;
        ret conversionId
    end.

Definition startPdfMergerConversion (ctx : Ctx) (sourceFileIds : list StorageId)
    (fileName : string) : M World ConversionId :=
  transaction
    match truthy (auth ctx) with
    | None => throw "Not authenticated"
    | Some uid =>
        let* conversionId :=
          db_insert (newConversion uid pdf_merger None (Some sourceFileIds)
                                   fileName (now ctx)) in
        scheduler_runAfter (mergePdfFilesTask conversionId) ;;
        ret conversionId
    end.

(** One entry of what [listConversions] returns: the document spread, plus
    the resolved URLs. *)
Record ConversionListItem := {
  li_conversion : Conversion;
  li_docxUrl : option string;
  li_pdfUrl : option string;
  li_sourceUrls : list (option string)
}.

Definition listItem (w : World) (c : Conversion) : ConversionListItem :=
  {| li_conversion := c;
     li_docxUrl := match docxFileId c with
                   | Some f => storage_getUrl w f
                   | None => None
                   end;
     li_pdfUrl := match pdfFileId c with
                  | Some f => storage_getUrl w f
                  | None => None
                  end;
     li_sourceUrls := match sourceFileIds c with
                      | Some ids => map (storage_getUrl w) ids
                      | None => []
                      end |}.

(** The index range [by_user_and_type] with both fields fixed; within it the
    documents come in creation order. *)
Definition by_user_and_type (uid : string) (ty : ConversionType)
    (c : Conversion) : bool :=
  bool_decide (userId c = uid) && bool_decide (type c = ty).

Definition listConversions (ctx : Ctx) (ty : ConversionType) (w : World)
    : list ConversionListItem :=
  match truthy (auth ctx) with
  | None => []
  | Some uid =>
      let conversions :=
        rev (List.filter (by_user_and_type uid ty) (conversions w)) in
      map (listItem w) conversions
  end.

(** What [getConversion] returns: the document spread, plus the resolved
    URLs ([sourceUrls] is undefined when none resolves). *)
Record ConversionResult := {
  cr_conversion : Conversion;
  cr_pdfUrl : option string;
  cr_docxUrl : option string;
  cr_sourceUrls : option (list string)
}.

Definition isSourceListType (ty : ConversionType) : bool :=
  match ty with
  | image_to_pdf | pdf_merger => true
  | pdf_to_word => false
  end.

Definition getConversion (ctx : Ctx) (conversionId : ConversionId) (w : World)
    : option ConversionResult :=
  match db_get conversionId w with
  | None => None
  | Some conversion =>
      let pdfUrl := match pdfFileId conversion with
                    | Some f => storage_getUrl w f
                    | None => None
                    end in
      let docxUrl := match docxFileId conversion with
                     | Some f => storage_getUrl w f
                     | None => None
                     end in
      let sourceUrls :=
        match sourceFileIds conversion with
        | Some (id :: ids) =>
            if isSourceListType (type conversion)
            then omap (fun i => truthy (storage_getUrl w i)) (id :: ids)
            else []
        | _ => []
        end in
      Some {| cr_conversion := conversion;
              cr_pdfUrl := pdfUrl;
              cr_docxUrl := docxUrl;
              cr_sourceUrls := match sourceUrls with
                               | [] => None
                               | _ => Some sourceUrls
                               end |}
  end.

Definition getConversionJob (ctx : Ctx) (conversionId : ConversionId)
    (w : World) : option Conversion :=
  db_get conversionId w.

(** The object literal that [markConversionComplete] passes to patch. *)
Definition markConversionCompleteFields (t : Z) (success : bool)
    (docxFileId : option StorageId) : PartialFields :=
  {| p_userId := None;
     p_status := Some (if success then completed else failed);
     p_type := None; p_pdfFileId := None;
     p_docxFileId := docxFileId;
     p_fileName := None; p_error := None; p_createdAt := None;
     p_updatedAt := Some t;
     p_expiresAt := None; p_sourceFileIds := None; p_completedAt := None |}.

Definition markConversionComplete (ctx : Ctx) (conversionId : ConversionId)
    (success : bool) (docxFileId : option StorageId) : M World unit :=
  transaction
    (let* conversion := gets (db_get conversionId) in
     match conversion with
     | None => throw "Conversion not found"
     | Some _ =>
         db_patch conversionId
           (markConversionCompleteFields (now ctx) success docxFileId)
     end).

(** The object literal that [updateConversionJob] passes to patch; an empty
    error string is falsy and so is not spread into it. *)
Definition updateConversionJobFields (t : Z) (pdfFileId : option StorageId)
    (status : option Status) (error : option string) : PartialFields :=
  {| p_userId := None;
     p_status := status;
     p_type := None;
     p_pdfFileId := pdfFileId;
     p_docxFileId := None; p_fileName := None;
     p_error := truthy error;
     p_createdAt := None;
     p_updatedAt := Some t;
     p_expiresAt := None; p_sourceFileIds := None; p_completedAt := None |}.

Definition updateConversionJob (ctx : Ctx) (jobId : ConversionId)
    (pdfFileId : option StorageId) (status : option Status)
    (error : option string) : M World unit :=
  transaction
    (db_patch jobId (updateConversionJobFields (now ctx) pdfFileId status error)).

(** ** conversion.ts: the detached conversion tasks *)

(** What [fetch] gives back: a thrown network error, or a response with its
    [ok] flag, its status line and its body. *)
Inductive FetchResult :=
| FetchFailed (msg : string)
| Response (ok : bool) (statusLine : string) (body : Bytes).

(** What posting to an upload URL leads to: the blob is stored and its id
    returned, the response carries no [storageId], or the request throws. *)
Inductive UploadOutcome :=
| UploadStored
| UploadRejected
| UploadFailed (msg : string).

(** Everything outside the deployment that a task depends on: the process
    environment, the network, the Cloudmersive service and the PDF
    libraries. *)
Record Env := {
  CLOUDMERSIVE_API_KEY : option string;
  fetch : string -> FetchResult;
  convertDocumentPdfToDocx : Bytes -> Result Bytes;
  convertImageImageToPdf : Bytes -> Result Bytes;
  pdfkit_image : Bytes -> Result PageOp;
  pdflib_error : option string;
  upload : Bytes -> UploadOutcome;
  toLocaleDateString : string
}.

Definition lift {S A} (r : Result A) : M S A := fun s => (r, s).

(** [Promise.all(xs.map(f))] for an [f] without effects on the store: the
    first rejection in list order is the one reported. *)
Fixpoint mapResult {A B} (f : A -> Result B) (xs : list A) : Result (list B) :=
  match xs with
  | [] => Ok []
  | x :: rest =>
      match f x with
      | Throw e => Throw e
      | Ok y =>
          match mapResult f rest with
          | Throw e => Throw e
          | Ok ys => Ok (y :: ys)
          end
      end
  end.

(** The context in which a task runs its queries and mutations: scheduled
    functions carry no caller identity. *)
Definition taskCtx (t : Z) : Ctx := {| auth := None; now := t |}.

Definition convertPdfToWord (env : Env) (t : Z) (conversionId : ConversionId)
    : M World StorageId :=
  try_catch
    (let* conversion := gets (getConversion (taskCtx t) conversionId) in
     match conversion with
     | None => throw "Conversion not found"
     | Some conversion =>
     match truthy (CLOUDMERSIVE_API_KEY env) with
     | None => throw "Cloudmersive API key not found in environment variables"
     | Some apiKey =>
     match pdfFileId (cr_conversion conversion) with
     | None => throw "PDF file ID is missing"
     | Some pdfFile =>
     let* pdfUrl := gets (fun w => truthy (storage_getUrl w pdfFile)) in
     match pdfUrl with
     | None => throw "PDF file not found"
     | Some pdfUrl =>
     match fetch env pdfUrl with
     | FetchFailed e => throw e
     | Response false statusLine _ =>
         throw ("Failed to download PDF: " +:+ statusLine)
     | Response true _ pdfBuffer =>
         let* result := lift (convertDocumentPdfToDocx env pdfBuffer) in
         let* docxBytes := storage_store result in
         markConversionComplete (taskCtx t) conversionId true (Some docxBytes) ;;
         ret docxBytes
     end end end end end)
    (fun error =>
       markConversionComplete (taskCtx t) conversionId false None ;;
       throw error).

(** [fetch(url)] followed by reading the body, with no look at [ok]. *)
Definition download (env : Env) (url : string) : Result Bytes :=
  match fetch env url with
  | FetchFailed e => Throw e
  | Response _ _ body => Ok body
  end.

Definition convertWithCloudmersive (env : Env) (urls : list string)
    (apiKey : string) : Result Bytes :=
  match mapResult (download env) urls with
  | Throw e => Throw e
  | Ok imageBuffers =>
      match imageBuffers with
      | [image] => convertImageImageToPdf env image
      | _ => Throw "Multiple image conversion with Cloudmersive not implemented"
      end
  end.

Definition convertWithPdfKit (env : Env) (urls : list string) : Result Bytes :=
  match mapResult (download env) urls with
  | Throw e => Throw e
  | Ok images =>
      match mapResult (fun image =>
                         match pdfkit_image env image with
                         | Ok op => Ok [op]
                         | Throw e => Throw e
                         end) images with
      | Throw e => Throw e
      | Ok pages => Ok (PdfBytes pages)
      end
  end.

(** *** The last-resort document of the image chain *)

(** Page coordinates are kept in hundredths of a point, so that the default
    page height of pdf-lib (841.89 points) is the integer [84189]. *)
Definition pt (n : Z) : Z := n * 100.

Definition A4_height : Z := 84189.

Definition displayUrl (url : string) : string :=
  if (80 <? String.length url)%nat
  then String.substring 0 77 url +:+ "..."
  else url.

Definition urlLine (i : nat) (url : string) : string :=
  string_of_nat (i + 1) +:+ ". " +:+ displayUrl url.

(** The listing loop, at index [i] with [urls] the entries from [i] on and
    [total] the length of the whole list. *)
Fixpoint drawUrlList (total i : nat) (yPosition : Z) (urls : list string)
    : list PageOp :=
  match urls with
  | [] => []
  | url :: rest =>
      if (30 <=? i)%nat then []
      else
        let line := DrawText (pt 50) yPosition 8 (urlLine i url) in
        let yPosition' := yPosition - pt 15 in
        if yPosition' <? pt 50
        then [line;
              DrawText (pt 50) (pt 30) 10
                ("... and " +:+ string_of_nat (total - i - 1) +:+ " more")]
        else line :: drawUrlList total (S i) yPosition' rest
  end.

Definition coverPage (height : Z) (date : string) (count : nat) : Page :=
  [ DrawText (pt 50) (height - pt 100) 28 "PDF Document";
    DrawText (pt 50) (height - pt 150) 14
      ("Contains " +:+ string_of_nat count +:+ " image"
       +:+ (if Nat.eqb count 1 then "" else "s"));
    DrawText (pt 50) (height - pt 180) 14 ("Generated on " +:+ date);
    DrawText (pt 50) (height - pt 230) 12
      "Note: Server-side image embedding failed.";
    DrawText (pt 50) (height - pt 250) 12
      "Please try client-side conversion instead." ].

Definition imageUrlsPage (height : Z) (urls : list string) : Page :=
  DrawText (pt 50) (height - pt 70) 14 "Image References:"
  :: drawUrlList (length urls) 0 (height - pt 100) urls.

Definition simplePdfPages (height : Z) (date : string) (urls : list string)
    : list Page :=
  [coverPage height date (length urls); imageUrlsPage height urls].

Definition createSimplePdfFromUrls (env : Env) (urls : list string)
    : Result Bytes :=
  match pdflib_error env with
  | Some errorMessage =>
      Throw ("Simple PDF generation failed: " +:+ errorMessage)
  | None =>
      Ok (PdfBytes (simplePdfPages A4_height (toLocaleDateString env) urls))
  end.

(** *** The image strategy chain *)

Definition validUrlsOf (urls : list (option string)) : list string :=
  omap truthy urls.

(** The last tier's promise is returned without being awaited, so its
    rejection passes the enclosing handler untouched. *)
Definition convertImagesToPdfBuffer (env : Env) (urls : list (option string))
    : Result Bytes :=
  let validUrls := validUrlsOf urls in
  match validUrls with
  | [] => Throw "No valid image URLs to convert"
  | _ =>
      let afterPdfKit :=
        match convertWithPdfKit env validUrls with
        | Ok pdf => Ok pdf
        | Throw _ => createSimplePdfFromUrls env validUrls
        end in
      match truthy (CLOUDMERSIVE_API_KEY env) with
      | Some apiKey =>
          match convertWithCloudmersive env validUrls apiKey with
          | Ok pdf => Ok pdf
          | Throw _ => afterPdfKit
          end
      | None => afterPdfKit
      end
  end.

(** [err.message || "Unknown error"]. *)
Definition messageOr (fallback : string) (msg : string) : string :=
  match msg with EmptyString => fallback | _ => msg end.

Definition convertImagesToPdf (env : Env) (t : Z) (conversionId : ConversionId)
    : M World (option StorageId) :=
  let* conversion := gets (getConversionJob (taskCtx t) conversionId) in
  match conversion with
  | None => throw "Invalid conversion job"
  | Some conversion =>
      if negb (bool_decide (type conversion = image_to_pdf))
      then throw "Invalid conversion job"
      else
        try_catch
          (let* urls := gets (fun w =>
                          match sourceFileIds conversion with
                          | Some ids => map (storage_getUrl w) ids
                          | None => []
                          end) in
           match urls with
           | [] => throw "No source images found"
           | _ =>
               let* pdfBuffer := lift (convertImagesToPdfBuffer env urls) in
               let* storageId :=
                 match upload env pdfBuffer with
                 | UploadFailed e => throw e
                 | UploadRejected => ret None
                 | UploadStored =>
                     let* id := storage_store pdfBuffer in ret (Some id)
                 end in
               updateConversionJob (taskCtx t) conversionId storageId
                                   (Some completed) None ;;
               ret storageId
           end)
          (fun err =>
             updateConversionJob (taskCtx t) conversionId None (Some failed)
                                 (Some (messageOr "Unknown error" err)) ;;
             throw err)
  end.

(** *** The merge task *)

(** [PDFLib.load] followed by [copyPages] over all page indices. *)
Definition PDFLib_load (b : Bytes) : Result (list Page) :=
  match b with
  | PdfBytes pages => Ok pages
  | _ => Throw "Failed to parse PDF document"
  end.

Fixpoint mergeLoop (mergedPdf : list Page) (pdfBuffers : list Bytes)
    : list Page :=
  match pdfBuffers with
  | [] => mergedPdf
  | buffer :: rest =>
      match PDFLib_load buffer with
      | Ok pages => mergeLoop (mergedPdf ++ pages) rest
      | Throw _ => mergeLoop mergedPdf rest
      end
  end.

Definition downloadPdf (env : Env) (indexed : nat * string) : Result Bytes :=
  match fetch env (snd indexed) with
  | FetchFailed e => Throw e
  | Response false statusLine _ =>
      Throw ("Failed to download PDF " +:+ string_of_nat (fst indexed + 1)
             +:+ ": " +:+ statusLine)
  | Response true _ body => Ok body
  end.

Definition indexed {A} (xs : list A) : list (nat * A) :=
  combine (seq 0 (length xs)) xs.

Definition mergePdfFiles (env : Env) (t : Z) (conversionId : ConversionId)
    : M World StorageId :=
  try_catch
    (let* conversion := gets (getConversion (taskCtx t) conversionId) in
     match conversion with
     | None => throw "Conversion not found"
     | Some conversion =>
         match sourceFileIds (cr_conversion conversion) with
         | Some (f1 :: f2 :: more) =>
             let ids := f1 :: f2 :: more in
             let* pdfUrls :=
               (fun w =>
                  (mapResult
                     (fun fileId =>
                        match truthy (storage_getUrl w fileId) with
                        | Some url => Ok url
                        | None => Throw ("PDF file not found for ID: "
                                         +:+ string_of_nat fileId)
                        end) ids, w)) in
             let* pdfBuffers :=
               lift (mapResult (downloadPdf env) (indexed pdfUrls)) in
             let mergedPdf := mergeLoop [] pdfBuffers in
             let* storedPdfId := storage_store (PdfBytes mergedPdf) in
             updateConversionJob (taskCtx t) conversionId (Some storedPdfId)
                                 (Some completed) None ;;
             ret storedPdfId
         | _ => throw "At least two PDF files are required for merging"
         end
     end)
    (fun error =>
       updateConversionJob (taskCtx t) conversionId None (Some failed)
                           (Some error) ;;
       throw error).

(** Running one task off the scheduler queue; a task's own result goes
    nowhere, only its writes remain. *)
Definition runTask (env : Env) (t : Z) (task : Task) (w : World) : World :=
  match task with
  | convertPdfToWordTask id => snd (convertPdfToWord env t id w)
  | convertImagesToPdfTask id => snd (convertImagesToPdf env t id w)
  | mergePdfFilesTask id => snd (mergePdfFiles env t id w)
  end.

(** ** crons.ts: the expiry sweep *)

Definition cleanupOne (conversion : Conversion) : M World bool :=
  try_catch
    ((match pdfFileId conversion with
      | Some f => storage_delete f
      | None => ret tt
      end) ;;
     (match docxFileId conversion with
      | Some f => storage_delete f
      | None => ret tt
      end) ;;
     db_delete (_id conversion) ;;
     ret true)
    (fun _ => ret false).

Fixpoint cleanupLoop (expiredConversions : list Conversion) (deletedCount : nat)
    : M World nat :=
  match expiredConversions with
  | [] => ret deletedCount
  | conversion :: rest =>
      let* deleted := cleanupOne conversion in
      cleanupLoop rest (if deleted then S deletedCount else deletedCount)
  end.

Definition isExpired (t : Z) (c : Conversion) : bool := expiresAt c <? t.

Definition cleanupExpiredConversions (ctx : Ctx) : M World nat :=
  transaction
    (let* expiredConversions :=
       gets (fun w => List.filter (isExpired (now ctx)) (conversions w)) in
     cleanupLoop expiredConversions 0).

(** ** conversion.ts: the remote-API image strategy with batched merging *)

(** The Cloudmersive client as [convertImagesWithApi] uses it: the image
    method that the SDK object happens to have (if any), the merge of a
    ten-slot request, and the merge of exactly two files. *)
Record Cloudmersive := {
  imageToPdfMethod : option (Bytes -> Result Bytes);
  mergeDocumentPdfMulti : list (option Bytes) -> Result Bytes;
  mergeDocumentPdf : Bytes -> Bytes -> Result Bytes
}.

(** The calls made to the merge endpoints, in order. *)
Inductive MergeCall :=
| MultiCall (request : list (option Bytes))
| PairCall (file1 file2 : Bytes).

(** The files a call actually passes: the request slots that are defined. *)
Definition inputFiles (c : MergeCall) : list Bytes :=
  match c with
  | MultiCall request => omap id request
  | PairCall a b => [a; b]
  end.

Definition callMulti (api : Cloudmersive) (request : list (option Bytes))
    : M (list MergeCall) Bytes :=
  fun log => (mergeDocumentPdfMulti api request, log ++ [MultiCall request]).

Definition callPair (api : Cloudmersive) (a b : Bytes)
    : M (list MergeCall) Bytes :=
  fun log => (mergeDocumentPdf api a b, log ++ [PairCall a b]).

(** [xs.length > k ? xs[k] : undefined]. *)
Definition slot (xs : list Bytes) (k : nat) : option Bytes :=
  if (k <? length xs)%nat then xs !! k else None.

(** [xs.slice(i, i + 9)]. *)
Definition slice9 (xs : list Bytes) (i : nat) : list Bytes :=
  firstn 9 (skipn i xs).

Definition createPdfPages (api : Cloudmersive) (imageBuffers : list Bytes)
    : Result (list Bytes) :=
  mapResult
    (fun image =>
       match imageToPdfMethod api with
       | Some method => method image
       | None => Throw "No appropriate Cloudmersive API method found for image to PDF conversion"
       end) imageBuffers.

(** The batch loop [for (i = 10; i < pdfPages.length; i += 9)]; [fuel]
    bounds the number of rounds. *)
Fixpoint mergeBatches (fuel : nat) (api : Cloudmersive) (pdfPages : list Bytes)
    (i : nat) (currentPdf : Bytes) : M (list MergeCall) Bytes :=
  match fuel with
  | O => ret currentPdf
  | S fuel' =>
      if (i <? length pdfPages)%nat
      then
        let batch := slice9 pdfPages i in
        let* merged :=
          callMulti api
            [ Some currentPdf; batch !! 0%nat; slot batch 1; slot batch 2;
              slot batch 3; slot batch 4; slot batch 5; slot batch 6;
              slot batch 7; slot batch 8 ] in
        mergeBatches fuel' api pdfPages (i + 9) merged
      else ret currentPdf
  end.

Definition mergePdfPages (api : Cloudmersive) (pdfPages : list Bytes)
    : M (list MergeCall) Bytes :=
  match pdfPages with
  | [] => throw "Invalid PDF merge state"
  | [page] => ret page
  | [page0; page1] => callPair api page0 page1
  | page0 :: page1 :: _ =>
      let* mergedPdf :=
        callMulti api
          [ Some page0; Some page1; slot pdfPages 2; slot pdfPages 3;
            slot pdfPages 4; slot pdfPages 5; slot pdfPages 6;
            slot pdfPages 7; slot pdfPages 8; slot pdfPages 9 ] in
      if (10 <? length pdfPages)%nat
      then mergeBatches (length pdfPages) api pdfPages 10 mergedPdf
      else ret mergedPdf
  end.

Definition convertImagesWithApi (api : Cloudmersive) (apiKey : string)
    (imageBuffers : list Bytes) : M (list MergeCall) Bytes :=
  let* pdfPages := lift (createPdfPages api imageBuffers) in
  mergePdfPages api pdfPages.

(** A merge service that does what it is documented to do: the output has
    the pages of the files passed, in slot order. *)
Definition pagesOf (b : Bytes) : list Page :=
  match b with PdfBytes pages => pages | _ => [] end.

Definition mergedBytes (inputs : list Bytes) : Bytes :=
  PdfBytes (concat (map pagesOf inputs)).

Definition MergesFaithfully (api : Cloudmersive) : Prop :=
  (forall request, mergeDocumentPdfMulti api request
                   = Ok (mergedBytes (omap id request)))
  /\ (forall a b, mergeDocumentPdf api a b = Ok (mergedBytes [a; b])).

(** The folding that the batched merge is meant to perform, as a relation
    between the document merged so far, the documents still to merge, the
    files of each further call and the final result: every round passes the
    previous output first, then the next nine documents (fewer only in the
    last round). *)
Inductive Rounds (api : Cloudmersive)
    : Bytes -> list Bytes -> list (list Bytes) -> Result Bytes -> Prop :=
| rounds_done current :
    Rounds api current [] [] (Ok current)
| rounds_next current batch rest merged calls result :
    batch <> [] ->
    (length batch <= 9)%nat ->
    (rest <> [] -> length batch = 9%nat) ->
    (exists request, omap id request = current :: batch
                     /\ mergeDocumentPdfMulti api request = Ok merged) ->
    Rounds api merged rest calls result ->
    Rounds api current (batch ++ rest) ((current :: batch) :: calls) result
| rounds_failed current batch rest e :
    batch <> [] ->
    (length batch <= 9)%nat ->
    (exists request, omap id request = current :: batch
                     /\ mergeDocumentPdfMulti api request = Throw e) ->
    Rounds api current (batch ++ rest) [current :: batch] (Throw e).

(** ** Predicates and functions used in the statements *)

(** The world after a successful patch of document [id]. *)
Definition patched (id : ConversionId) (p : PartialFields) (w : World) : World :=
  with_conversions
    (map (fun c => if Nat.eqb (_id c) id then applyPatch p c else c)
         (conversions w)) w.



(** The fields that neither patching mutation ever names. *)
Definition coreFieldsKept (before after : Conversion) : Prop :=
  _id after = _id before
  /\ userId after = userId before
  /\ type after = type before
  /\ fileName after = fileName before
  /\ createdAt after = createdAt before
  /\ expiresAt after = expiresAt before
  /\ sourceFileIds after = sourceFileIds before
  /\ completedAt after = completedAt before.

Definition ownedBy (uid : string) (c : Conversion) : bool :=
  bool_decide (userId c = uid).

Definition ofType (ty : ConversionType) (c : Conversion) : bool :=
  bool_decide (type c = ty).

(** Ids handed out so far lie below the table's counter. *)
Definition idsBelowCounter (w : World) : Prop :=
  Forall (fun c => (_id c < nextConversionId w)%nat) (conversions w).

Definition tooFewSources : string :=
  "At least two PDF files are required for merging".

Definition missingApiKey : string :=
  "Cloudmersive API key not found in environment variables".

(** The pages a source contributes: all of them when it opens, none when
    opening it throws. *)
Definition readablePages (b : Bytes) : list Page :=
  match PDFLib_load b with
  | Ok pages => pages
  | Throw _ => []
  end.

(** Source [fileId] is stored, and fetching its URL answers [buffer]. *)
Definition downloads (env : Env) (w : World) (fileId : StorageId)
    (buffer : Bytes) : Prop :=
  is_Some (files w !! fileId)
  /\ exists statusLine,
       fetch env (storageUrl fileId) = Response true statusLine buffer.

(** What each tier of the chain yields on the valid URLs, in the order of
    the chain; the remote-API tier is part of the chain only when an API key
    is configured. *)
Definition tierOutcomes (env : Env) (validUrls : list string)
    : list (Result Bytes) :=
  match truthy (CLOUDMERSIVE_API_KEY env) with
  | Some apiKey => [convertWithCloudmersive env validUrls apiKey]
  | None => []
  end
  ++ [convertWithPdfKit env validUrls; createSimplePdfFromUrls env validUrls].

(** An ordered list of attempts: the first success wins, and when all have
    failed the failure is the last one's. *)
Fixpoint firstSuccess (attempts : list (Result Bytes)) (lastError : string)
    : Result Bytes :=
  match attempts with
  | [] => Throw lastError
  | Ok pdf :: _ => Ok pdf
  | Throw e :: rest => firstSuccess rest e
  end.

Definition allFailed (attempts : list (Result Bytes)) : Prop :=
  Forall (fun r => isOk r = false) attempts.

(** The URLs the task resolves for a job's sources. *)
Definition sourceUrlsOf (w : World) (job : Conversion) : list (option string) :=
  match sourceFileIds job with
  | Some ids => map (storage_getUrl w) ids
  | None => []
  end.

(** Whether the image task ends in its handler: no source URL at all, a
    throwing chain, or a throwing upload. *)
Definition imageTaskFails (env : Env) (w : World) (job : Conversion) : bool :=
  match sourceUrlsOf w job with
  | [] => true
  | urls =>
      match convertImagesToPdfBuffer env urls with
      | Throw _ => true
      | Ok pdf =>
          match upload env pdf with
          | UploadFailed _ => true
          | _ => false
          end
      end
  end.

Definition failedFields (t : Z) (e : string) : PartialFields :=
  updateConversionJobFields t None (Some failed)
                            (Some (messageOr "Unknown error" e)).

Definition completedFields (t : Z) (sid : option StorageId) : PartialFields :=
  updateConversionJobFields t sid (Some completed) None.



Definition atMostTen (c : MergeCall) : Prop :=
  (length (inputFiles c) <= 10)%nat.

(** Ten documents in the first call, then rounds of the previous output
    plus up to nine further documents. *)
Definition FoldsInBatches (api : Cloudmersive) (pdfPages : list Bytes)
    (calls : list MergeCall) (result : Result Bytes) : Prop :=
  exists first more,
    calls = MultiCall first :: more
    /\ omap id first = firstn 10 pdfPages
    /\ match mergeDocumentPdfMulti api first with
       | Ok merged =>
           Rounds api merged (skipn 10 pdfPages) (map inputFiles more) result
       | Throw e => more = [] /\ result = Throw e
       end.

(** ** Sample deployments *)

Definition emptyWorld : World :=
  {| conversions := []; nextConversionId := 0; files := ∅;
     nextStorageId := 0; scheduled := [] |}.

Definition alice : Ctx := {| auth := Some "alice"; now := 1000 |}.

Definition bob : Ctx := {| auth := Some "bob"; now := 2000 |}.

(** Alice has uploaded one PDF (file 0) and asked for its conversion. *)
Definition aliceWorld : World :=
  snd (startConversion alice 0%nat "report.pdf"
         (snd (storage_store (PdfBytes [[DrawText 0 0 12 "report"]])
                             emptyWorld))).

Definition aliceJob : Conversion :=
  newConversion "alice" pdf_to_word (Some 0%nat) None "report.pdf" 1000 0%nat.

(** The same deployment after Bob has created a job of his own. *)
Definition aliceAndBobWorld : World :=
  snd (startImageToPdfConversion bob [] "holiday.pdf" aliceWorld).

(** No API key configured, and nothing outside the deployment reachable. *)
Definition offlineEnv : Env :=
  {| CLOUDMERSIVE_API_KEY := None;
     fetch := fun _ => FetchFailed "offline";
     convertDocumentPdfToDocx := fun _ => Throw "offline";
     convertImageImageToPdf := fun _ => Throw "offline";
     pdfkit_image := fun _ => Throw "Unknown image format.";
     pdflib_error := None;
     upload := fun _ => UploadFailed "offline";
     toLocaleDateString := "1/1/2025" |}.

(** Bob's image job, completed: two uploaded images (files 0 and 1) as
    sources, the generated PDF (file 2) as result. *)
Definition imageJobWorld : World :=
  let w0 := snd (storage_store (ImageBytes 1) emptyWorld) in
  let w1 := snd (storage_store (ImageBytes 2) w0) in
  let w2 := snd (startImageToPdfConversion bob [0%nat; 1%nat] "holiday.pdf" w1) in
  let w3 := snd (storage_store (PdfBytes [[DrawImage 1]; [DrawImage 2]]) w2) in
  snd (updateConversionJob (taskCtx 2500) 0%nat (Some 2%nat) (Some completed)
                           None w3).

Definition sweepTime : Ctx := {| auth := None; now := 2000 + 60 * 60 * 1000 + 1 |}.

Definition textPage (label : string) : Page := [DrawText 0 0 12 label].

Definition documentA : Bytes := PdfBytes [textPage "A1"; textPage "A2"].

Definition documentB : Bytes :=
  PdfBytes [textPage "B1"; textPage "B2"; textPage "B3"; textPage "B4";
            textPage "B5"].

(** Alice has uploaded [documentA] (file 0) and [documentB] (file 1) and
    asked for their merge. *)
Definition mergeWorld : World :=
  let w0 := snd (storage_store documentA emptyWorld) in
  let w1 := snd (storage_store documentB w0) in
  snd (startPdfMergerConversion alice [0%nat; 1%nat] "merged.pdf" w1).


(** Bob has uploaded two images (files 0 and 1) and asked for their PDF;
    the task has not run yet. *)
Definition imagePendingWorld : World :=
  let w0 := snd (storage_store (ImageBytes 1) emptyWorld) in
  let w1 := snd (storage_store (ImageBytes 2) w0) in
  snd (startImageToPdfConversion bob [0%nat; 1%nat] "holiday.pdf" w1).

Definition imagePendingJob : Conversion :=
  newConversion "bob" image_to_pdf None (Some [0%nat; 1%nat]) "holiday.pdf"
                2000 0%nat.

(** No API key; the network serves the two images, PDFKit embeds image data
    and refuses anything else, and the upload ends as [uploads] says. *)
Definition pdfkitEnv (uploads : UploadOutcome) : Env :=
  {| CLOUDMERSIVE_API_KEY := None;
     fetch := fun url =>
       if String.eqb url (storageUrl 0%nat)
       then Response true "200 OK" (ImageBytes 1)
       else if String.eqb url (storageUrl 1%nat)
            then Response true "200 OK" (ImageBytes 2)
            else FetchFailed "offline";
     convertDocumentPdfToDocx := fun _ => Throw "offline";
     convertImageImageToPdf := fun _ => Throw "offline";
     pdfkit_image := fun b =>
       match b with
       | ImageBytes i => Ok (DrawImage i)
       | _ => Throw "Unknown image format."
       end;
     pdflib_error := None;
     upload := fun _ => uploads;
     toLocaleDateString := "1/1/2025" |}.

(** A client whose image method makes a one-page document of an image and
    whose merge endpoints concatenate. *)
Definition faithfulApi : Cloudmersive :=
  {| imageToPdfMethod :=
       Some (fun image =>
               match image with
               | ImageBytes i => Ok (PdfBytes [[DrawImage i]])
               | _ => Throw "Input is not an image"
               end);
     mergeDocumentPdfMulti := fun request => Ok (mergedBytes (omap id request));
     mergeDocumentPdf := fun a b => Ok (mergedBytes [a; b]) |}.

Definition twelveImages : list Bytes :=
  map (fun i => ImageBytes i) (seq 1 12).

(** ** Further predicates: creation, listing and the tasks' terminal writes *)

(** The world after a creation mutation has inserted [job] and scheduled
    [task]. *)
Definition inserted (job : Conversion) (task : Task) (w : World) : World :=
  {| conversions := conversions w ++ [job];
     nextConversionId := S (nextConversionId w);
     files := files w; nextStorageId := nextStorageId w;
     scheduled := scheduled w ++ [task] |}.

(** A creation returned the table's next id, the job can be read back under
    it, its task is last in the scheduler queue, and nothing else moved. *)
Definition createdAs (job : ConversionId -> Conversion)
    (task : ConversionId -> Task) (w : World)
    (run : Result ConversionId * World) : Prop :=
  let id := nextConversionId w in
  fst run = Ok id
  /\ getConversionJob {| auth := None; now := 0 |} id (snd run) = Some (job id)
  /\ status (job id) = processing
  /\ error (job id) = None
  /\ expiresAt (job id) - createdAt (job id) = 3600000
  /\ scheduled (snd run) = scheduled w ++ [task id]
  /\ (forall j, j <> id -> db_get j (snd run) = db_get j w)
  /\ files (snd run) = files w
  /\ idsBelowCounter (snd run).

(** In the world [w1] the caller's lists are those of [w] with [job] put in
    front of the list of its type. *)
Definition prependsToList (ctx : Ctx) (job : Conversion) (w w1 : World)
    : Prop :=
  forall ty,
    listConversions ctx ty w1
    = if bool_decide (type job = ty)
      then listItem w1 job :: listConversions ctx ty w
      else listConversions ctx ty w.

(** After a creation by [ctx], the creator sees [job] first in the list of
    its type, and [other], a caller of another identity, sees no change. *)
Definition listedFirstFor (ctx other : Ctx) (job : Conversion) (w w1 : World)
    : Prop :=
  prependsToList ctx job w w1
  /\ forall ty, listConversions other ty w1 = listConversions other ty w.

(** What the body of the document-to-Word task computes before it stores
    anything: the converted bytes, or the message of the first failure. *)
Definition wordAttempt (env : Env) (w : World) (job : Conversion)
    : Result Bytes :=
  match truthy (CLOUDMERSIVE_API_KEY env) with
  | None => Throw missingApiKey
  | Some apiKey =>
  match pdfFileId job with
  | None => Throw "PDF file ID is missing"
  | Some pdfFile =>
  match truthy (storage_getUrl w pdfFile) with
  | None => Throw "PDF file not found"
  | Some pdfUrl =>
  match fetch env pdfUrl with
  | FetchFailed e => Throw e
  | Response false statusLine _ =>
      Throw ("Failed to download PDF: " +:+ statusLine)
  | Response true _ pdfBuffer => convertDocumentPdfToDocx env pdfBuffer
  end end end end.

(** What the body of the merge task computes before it stores anything: the
    merged document, or the message of the first failure. *)
Definition mergeAttempt (env : Env) (w : World) (job : Conversion)
    : Result Bytes :=
  match sourceFileIds job with
  | Some (f1 :: f2 :: more) =>
      match mapResult
              (fun fileId =>
                 match truthy (storage_getUrl w fileId) with
                 | Some url => Ok url
                 | None => Throw ("PDF file not found for ID: "
                                  +:+ string_of_nat fileId)
                 end) (f1 :: f2 :: more) with
      | Throw e => Throw e
      | Ok pdfUrls =>
          match mapResult (downloadPdf env) (indexed pdfUrls) with
          | Throw e => Throw e
          | Ok pdfBuffers => Ok (PdfBytes (mergeLoop [] pdfBuffers))
          end
      end
  | _ => Throw tooFewSources
  end.

(** An API key is configured, the network serves Alice's report and the
    conversion service turns a PDF into a Word document of the same
    pages. *)
Definition wordEnv : Env :=
  {| CLOUDMERSIVE_API_KEY := Some "0123456789abcdef";
     fetch := fun url =>
       if String.eqb url (storageUrl 0%nat)
       then Response true "200 OK" (PdfBytes [[DrawText 0 0 12 "report"]])
       else FetchFailed "offline";
     convertDocumentPdfToDocx := fun b =>
       match b with
       | PdfBytes pages => Ok (DocxBytes pages)
       | _ => Throw "Input is not a PDF"
       end;
     convertImageImageToPdf := fun _ => Throw "offline";
     pdfkit_image := fun _ => Throw "Unknown image format.";
     pdflib_error := None;
     upload := fun _ => UploadFailed "offline";
     toLocaleDateString := "1/1/2025" |}.

(** ** ConversionItem: what the history shows for a job *)

Definition isTruthy (v : option string) : bool :=
  match truthy v with Some _ => true | None => false end.

(** [hasDownloadableResult] of the history item: a Word URL for a
    document-to-Word job, a PDF URL for the two other types. *)
Definition hasDownloadableResult (item : ConversionListItem) : bool :=
  match type (li_conversion item) with
  | pdf_to_word => isTruthy (li_docxUrl item)
  | image_to_pdf | pdf_merger => isTruthy (li_pdfUrl item)
  end.

(** [displayStatus]: a failed job with a downloadable result is shown as
    completed. *)
Definition displayStatus (item : ConversionListItem) : Status :=
  if hasDownloadableResult item
  then match status (li_conversion item) with
       | failed => completed
       | other => other
       end
  else status (li_conversion item).

(** The number of calls to a merge endpoint for [k] documents when every
    call succeeds. *)
Definition mergeCallCount (k : nat) : nat :=
  if (k <=? 1)%nat then 0%nat
  else if (k <=? 10)%nat then 1%nat
  else (1 + (k - 10 + 8) / 9)%nat.

(** A page as the PDFKit tier makes it for [url]: the one image operation
    that PDFKit produced from the downloaded bytes. *)
Definition pdfkitPageOf (env : Env) (url : string) (page : Page) : Prop :=
  exists image op,
    download env url = Ok image
    /\ pdfkit_image env image = Ok op
    /\ page = [op].

(** No two documents of the table share an id. *)
Definition uniqueIds (w : World) : Prop :=
  List.NoDup (map _id (conversions w)).

(** The filter of [ctx.db.delete(id)]. *)
Definition keepsOthers (id : ConversionId) (c : Conversion) : bool :=
  negb (Nat.eqb (_id c) id).

(** The conversion of one image inside [createPdfPages]: through the image
    method the SDK object has, or a rejection when it has none. *)
Definition convertOneImage (api : Cloudmersive) (image : Bytes)
    : Result Bytes :=
  match imageToPdfMethod api with
  | Some method => method image
  | None =>
      Throw "No appropriate Cloudmersive API method found for image to PDF conversion"
  end.

(** ** conversion.ts: the hand-written PDF of [createSimplePdf] *)





















(** ** PdfMerger.tsx: selecting, uploading and starting a merge *)

Module PdfMerger.

(** A browser [File], with what the component looks at. *)
Record File := {
  name : string;
  type : string;
  size : Z;
  content : Bytes
}.

Definition MAX_FILES : nat := 20.
Definition MAX_FILE_SIZE_MB : Z := 50.

Definition isPdf (file : File) : bool :=
  String.eqb (type file) "application/pdf".

Definition isOversized (file : File) : bool :=
  MAX_FILE_SIZE_MB * 1024 * 1024 <? size file.

Definition sameNameAndSize (existingFile newFile : File) : bool :=
  String.eqb (name existingFile) (name newFile)
  && Z.eqb (size existingFile) (size newFile).

(** [handleFilesUpload]: the error toast, if any, and the selection
    afterwards. *)
Definition handleFilesUpload (selectedFiles : list File)
    (files : option (list File)) : option string * list File :=
  match files with
  | None | Some [] =>
      (Some "Please select at least one PDF file", selectedFiles)
  | Some files =>
      let pdfFiles := List.filter isPdf files in
      match pdfFiles with
      | [] => (Some "Please upload PDF files only", selectedFiles)
      | _ =>
          if (MAX_FILES <? length selectedFiles + length pdfFiles)%nat
          then (Some "You can select up to 20 PDF files. Please remove some files.",
                selectedFiles)
          else
            match List.filter isOversized pdfFiles with
            | _ :: _ =>
                (Some "Some files exceed the 50MB limit. Please select smaller files.",
                 selectedFiles)
            | [] =>
                let newFiles :=
                  List.filter
                    (fun newFile =>
                       negb (existsb (fun existingFile =>
                                        sameNameAndSize existingFile newFile)
                                     selectedFiles)) pdfFiles in
                (None, selectedFiles ++ newFiles)
            end
      end
  end.

(** [prevFiles.filter((_, i) => i !== index)]. *)
Definition handleRemoveFile (index : nat) (prevFiles : list File)
    : list File :=
  map snd (List.filter (fun entry => negb (Nat.eqb (fst entry) index))
                       (indexed prevFiles)).

Definition handleRemoveAllFiles : list File := [].





(** The selection respects the component's limits. *)
Definition validSelection (selectedFiles : list File) : Prop :=
  (length selectedFiles <= MAX_FILES)%nat
  /\ Forall (fun file =>
               type file = "application/pdf"
               /\ size file <= MAX_FILE_SIZE_MB * 1024 * 1024)
            selectedFiles.

End PdfMerger.

(** Two PDFs and a picture picked in the browser. *)
Definition pickedA : PdfMerger.File :=
  {| PdfMerger.name := "a.pdf"; PdfMerger.type := "application/pdf";
     PdfMerger.size := 2048; PdfMerger.content := documentA |}.

Definition pickedB : PdfMerger.File :=
  {| PdfMerger.name := "b.pdf"; PdfMerger.type := "application/pdf";
     PdfMerger.size := 5120; PdfMerger.content := documentB |}.

Definition pickedImage : PdfMerger.File :=
  {| PdfMerger.name := "c.png"; PdfMerger.type := "image/png";
     PdfMerger.size := 100; PdfMerger.content := ImageBytes 3 |}.


(** The blobs that the sweep deletes for a job: its [pdfFileId] and its
    [docxFileId], where present. *)
Definition sweptBlobs (c : Conversion) : list StorageId :=
  match pdfFileId c with Some f => [f] | None => [] end
  ++ match docxFileId c with Some f => [f] | None => [] end.

(** * Properties *)

(** ** Basic facts about the store *)

Lemma db_get_id (w : World) (id : ConversionId) (c : Conversion) :
  db_get id w = Some c -> _id c = id.
Proof.
  unfold db_get. intros H. apply find_some in H as [_ H].
  now apply Nat.eqb_eq in H.
Qed.

Lemma find_map_patch (id : ConversionId) (p : PartialFields)
    (cs : list Conversion) :
  List.find (fun c => Nat.eqb (_id c) id)
            (map (fun c => if Nat.eqb (_id c) id then applyPatch p c else c) cs)
  = option_map (applyPatch p) (List.find (fun c => Nat.eqb (_id c) id) cs).
Proof.
  induction cs as [|c cs IH]; simpl; [reflexivity|].
  destruct (Nat.eqb (_id c) id) eqn:E; simpl.
  - now rewrite E.
  - now rewrite E, IH.
Qed.


Lemma db_patch_run (w : World) (id : ConversionId) (c : Conversion)
    (p : PartialFields) :
  db_get id w = Some c ->
  db_patch id p w = (Ok tt, patched id p w).
Proof. intros H. unfold db_patch. now rewrite H. Qed.

Lemma db_get_patched (w : World) (id : ConversionId) (p : PartialFields) :
  db_get id (patched id p w) = option_map (applyPatch p) (db_get id w).
Proof. unfold db_get, patched. simpl. apply find_map_patch. Qed.


Lemma updateConversionJob_run (ctx : Ctx) (w : World) (id : ConversionId)
    (c : Conversion) (pdf : option StorageId) (st : option Status)
    (err : option string) :
  db_get id w = Some c ->
  updateConversionJob ctx id pdf st err w
  = (Ok tt, patched id (updateConversionJobFields (now ctx) pdf st err) w).
Proof.
  intros H. unfold updateConversionJob, transaction.
  now rewrite (db_patch_run w id c _ H).
Qed.

Lemma markConversionComplete_run (ctx : Ctx) (w : World) (id : ConversionId)
    (c : Conversion) (success : bool) (docx : option StorageId) :
  db_get id w = Some c ->
  markConversionComplete ctx id success docx w
  = (Ok tt, patched id (markConversionCompleteFields (now ctx) success docx) w).
Proof.
  intros H. unfold markConversionComplete, transaction, bind, gets.
  rewrite H. now rewrite (db_patch_run w id c _ H).
Qed.

Lemma truthy_storageUrl (id : StorageId) :
  truthy (Some (storageUrl id)) = Some (storageUrl id).
Proof. reflexivity. Qed.

(** ** Frame of a patch *)





(** ** Authentication of the readers and the creators *)

(** C10: for a caller without identity, [listConversions] returns the empty
    list, while each of the three creation mutations throws
    "Not authenticated" and writes nothing. *)
Theorem unauthenticated_list_is_empty_and_creation_throws :
  forall (t : Z) (ty : ConversionType) (w : World) (file : StorageId)
         (sources : list StorageId) (name : string),
    let ctx := {| auth := None; now := t |} in
    listConversions ctx ty w = []
    /\ startConversion ctx file name w = (Throw "Not authenticated", w)
    /\ startImageToPdfConversion ctx sources name w
       = (Throw "Not authenticated", w)
    /\ startPdfMergerConversion ctx sources name w
       = (Throw "Not authenticated", w).
Proof. intros. repeat split. Qed.

(** ** Who can read a job *)

Lemma filter_by_user_and_type (uid : string) (ty : ConversionType)
    (cs : list Conversion) :
  List.filter (by_user_and_type uid ty) cs
  = List.filter (ofType ty) (List.filter (ownedBy uid) cs).
Proof.
  induction cs as [|c cs IH]; simpl; [reflexivity|].
  unfold by_user_and_type at 1, ownedBy at 1.
  destruct (bool_decide (userId c = uid)); simpl.
  - fold (ofType ty c). destruct (ofType ty c); now rewrite IH.
  - exact IH.
Qed.

Lemma storage_getUrl_files (w1 w2 : World) (f : StorageId) :
  files w1 = files w2 -> storage_getUrl w1 f = storage_getUrl w2 f.
Proof. unfold storage_getUrl. now intros ->. Qed.

Lemma listItem_files (w1 w2 : World) (c : Conversion) :
  files w1 = files w2 -> listItem w1 c = listItem w2 c.
Proof.
  intros H. unfold listItem. f_equal.
  - destruct (docxFileId c); [now apply storage_getUrl_files | reflexivity].
  - destruct (pdfFileId c); [now apply storage_getUrl_files | reflexivity].
  - destruct (sourceFileIds c); [|reflexivity].
    apply map_ext. intros f. now apply storage_getUrl_files.
Qed.

Lemma listConversions_owned (ctx : Ctx) (ty : ConversionType) (w : World)
    (item : ConversionListItem) :
  In item (listConversions ctx ty w) ->
  truthy (auth ctx) = Some (userId (li_conversion item))
  /\ type (li_conversion item) = ty
  /\ In (li_conversion item) (conversions w).
Proof.
  unfold listConversions. destruct (truthy (auth ctx)) as [uid|]; [|intros []].
  intros H. apply in_map_iff in H as [c [<- H]]. simpl.
  apply in_rev in H. apply filter_In in H as [Hin H].
  unfold by_user_and_type in H. apply andb_true_iff in H as [Hu Ht].
  apply bool_decide_eq_true in Hu. apply bool_decide_eq_true in Ht.
  subst. auto.
Qed.

(** C2, as the code has it: [listConversions] returns only jobs of the
    caller, and its output for a caller is the same in two worlds that
    differ only in other users' jobs; [getConversion] does not look at the
    caller at all and returns any existing job to whoever supplies its id. *)
Theorem listConversions_owner_only_getConversion_any_caller :
  forall (ctx : Ctx) (uid : string) (ty : ConversionType) (w w2 : World),
    truthy (auth ctx) = Some uid ->
    files w2 = files w ->
    List.filter (ownedBy uid) (conversions w2)
    = List.filter (ownedBy uid) (conversions w) ->
    listConversions ctx ty w2 = listConversions ctx ty w
    /\ (forall item, In item (listConversions ctx ty w) ->
          userId (li_conversion item) = uid
          /\ type (li_conversion item) = ty
          /\ In (li_conversion item) (conversions w))
    /\ (forall ctx2 id, getConversion ctx2 id w = getConversion ctx id w)
    /\ (forall id c, db_get id w = Some c ->
          exists r, getConversion ctx id w = Some r /\ cr_conversion r = c).
Proof.
  intros ctx uid ty w w2 Hauth Hfiles Hown. split; [|split; [|split]].
  - unfold listConversions. rewrite Hauth.
    rewrite !filter_by_user_and_type, Hown.
    apply map_ext. intros c. now apply listItem_files.
  - intros item Hin. apply listConversions_owned in Hin as [Hu Hrest].
    split; [congruence | exact Hrest].
  - reflexivity.
  - intros id c Hget. unfold getConversion. rewrite Hget. eauto.
Qed.

Lemma listConversions_owner_only_getConversion_any_caller_witness :
  listConversions alice pdf_to_word aliceAndBobWorld
  = listConversions alice pdf_to_word aliceWorld.
Proof.
  apply (listConversions_owner_only_getConversion_any_caller
           alice "alice" pdf_to_word aliceWorld aliceAndBobWorld);
    reflexivity.
Defined.

(** C2 as stated fails for [getConversion]: Bob, who owns no job, reads
    Alice's job, file name and source URL through its id. *)
Lemma getConversion_serves_non_owner :
  exists r,
    getConversion bob 0%nat aliceWorld = Some r
    /\ userId (cr_conversion r) = "alice"
    /\ auth bob <> Some (userId (cr_conversion r))
    /\ fileName (cr_conversion r) = "report.pdf"
    /\ cr_pdfUrl r = Some (storageUrl 0%nat).
Proof.
  eexists. split; [reflexivity|]. repeat split. discriminate.
Qed.

(** ** Where the source count of a merge is checked *)

Lemma find_fresh (id : ConversionId) (new : Conversion)
    (cs : list Conversion) :
  Forall (fun c => (_id c < id)%nat) cs ->
  _id new = id ->
  List.find (fun c => Nat.eqb (_id c) id) (cs ++ [new]) = Some new.
Proof.
  intros Hall Hid. induction Hall as [|c cs Hc _ IH]; simpl.
  - now rewrite Hid, Nat.eqb_refl.
  - assert (Nat.eqb (_id c) id = false) as -> by (apply Nat.eqb_neq; lia).
    exact IH.
Qed.

(** C3, as the code has it: for an authenticated caller and fewer than two
    source ids, [startPdfMergerConversion] raises nothing; it inserts the job
    as processing, schedules the merge task and returns the id.  The check
    of the source count is made by the detached task [mergePdfFiles], which
    throws there and records the message on the job. *)
Theorem merge_source_count_checked_by_task :
  forall (ctx : Ctx) (uid : string) (ids : list StorageId) (name : string)
         (w : World) (env : Env) (t : Z),
    truthy (auth ctx) = Some uid ->
    (length ids < 2)%nat ->
    idsBelowCounter w ->
    let id := nextConversionId w in
    let job := newConversion uid pdf_merger None (Some ids) name (now ctx) id in
    exists w1,
      startPdfMergerConversion ctx ids name w = (Ok id, w1)
      /\ db_get id w1 = Some job
      /\ status job = processing /\ error job = None
      /\ scheduled w1 = scheduled w ++ [mergePdfFilesTask id]
      /\ fst (mergePdfFiles env t id w1) = Throw tooFewSources
      /\ exists after,
           db_get id (runTask env t (mergePdfFilesTask id) w1) = Some after
           /\ status after = failed
           /\ error after = Some tooFewSources
           /\ pdfFileId after = None.
Proof.
  intros ctx uid ids name w env t Hauth Hlen Hids id job.
  set (w1 := {| conversions := conversions w ++ [job];
                nextConversionId := S id; files := files w;
                nextStorageId := nextStorageId w;
                scheduled := scheduled w ++ [mergePdfFilesTask id] |}).
  exists w1. split.
  { unfold startPdfMergerConversion, transaction. rewrite Hauth. reflexivity. }
  assert (Hget : db_get id w1 = Some job).
  { unfold db_get; simpl. now apply find_fresh. }
  split; [exact Hget|]. split; [reflexivity|]. split; [reflexivity|].
  split; [reflexivity|].
  assert (Hrun : forall w', db_get id w' = Some job ->
            mergePdfFiles env t id w'
            = (Throw tooFewSources,
               patched id (updateConversionJobFields t None (Some failed)
                                                     (Some tooFewSources)) w')).
  { intros w' H1. unfold mergePdfFiles, try_catch, bind, gets, getConversion.
    rewrite H1.
    destruct ids as [|f1 [|f2 more]]; simpl in Hlen; try lia;
      cbn -[updateConversionJob];
      rewrite (updateConversionJob_run (taskCtx t) w' id _ _ _ _ H1);
      reflexivity. }
  split; [now rewrite Hrun|].
  unfold runTask. rewrite (Hrun _ Hget). cbn [snd].
  rewrite db_get_patched, Hget. cbn [option_map].
  eexists. split; [reflexivity|]. now repeat split.
Qed.

Lemma merge_source_count_checked_by_task_witness :
  exists w1,
    startPdfMergerConversion alice [0%nat] "merged.pdf" aliceWorld = (Ok 1%nat, w1)
    /\ fst (mergePdfFiles
              offlineEnv 3000 1%nat w1)
       = Throw tooFewSources.
Proof.
  destruct (merge_source_count_checked_by_task alice "alice" [0%nat]
              "merged.pdf" aliceWorld
              offlineEnv 3000)
    as [w1 [H1 [_ [_ [_ [_ [H2 _]]]]]]].
  - reflexivity.
  - simpl; lia.
  - repeat constructor.
  - exists w1. split; [exact H1 | exact H2].
Defined.

(** C3 as stated fails: a merge request with a single source, from an
    authenticated caller, is accepted and its job id returned. *)
Lemma startPdfMergerConversion_accepts_one_source :
  fst (startPdfMergerConversion alice [0%nat] "merged.pdf" aliceWorld)
  = Ok 1%nat
  /\ ~ (exists msg,
          fst (startPdfMergerConversion alice [0%nat] "merged.pdf" aliceWorld)
          = Throw msg).
Proof.
  split; [reflexivity|]. intros [msg H]. discriminate H.
Qed.

(** ** What a failed document-to-Word task records *)

Lemma convertPdfToWord_without_key (env : Env) (t : Z) (id : ConversionId)
    (w : World) (job : Conversion) :
  db_get id w = Some job ->
  truthy (CLOUDMERSIVE_API_KEY env) = None ->
  convertPdfToWord env t id w
  = (Throw missingApiKey,
     patched id (markConversionCompleteFields t false None) w).
Proof.
  intros Hget Hkey.
  unfold convertPdfToWord, try_catch, bind, gets, getConversion, throw.
  rewrite Hget, Hkey.
  now rewrite (markConversionComplete_run (taskCtx t) w id job false None Hget).
Qed.

(** C1, at its failing case: when the API key is missing, the task throws
    the message about the missing key, and its terminal write sets the
    status to failed and nothing else: the job's error field and result blob
    id are what they were before (absent, for a job that has just been
    created). *)
Theorem convertPdfToWord_missing_key_writes_no_error :
  forall (env : Env) (t : Z) (id : ConversionId) (w : World)
         (job : Conversion),
    db_get id w = Some job ->
    truthy (CLOUDMERSIVE_API_KEY env) = None ->
    fst (convertPdfToWord env t id w) = Throw missingApiKey
    /\ exists after,
         db_get id (runTask env t (convertPdfToWordTask id) w) = Some after
         /\ status after = failed
         /\ error after = error job
         /\ docxFileId after = docxFileId job.
Proof.
  intros env t id w job Hget Hkey. unfold runTask.
  rewrite (convertPdfToWord_without_key env t id w job Hget Hkey). cbn [fst snd].
  split; [reflexivity|].
  rewrite db_get_patched, Hget. cbn [option_map].
  eexists. split; [reflexivity|]. now repeat split.
Qed.

Lemma convertPdfToWord_missing_key_writes_no_error_witness :
  exists after,
    db_get 0%nat (runTask offlineEnv 3000 (convertPdfToWordTask 0%nat) aliceWorld)
    = Some after
    /\ status after = failed
    /\ error after = None
    /\ docxFileId after = None.
Proof.
  destruct (convertPdfToWord_missing_key_writes_no_error
              offlineEnv 3000 0%nat aliceWorld aliceJob eq_refl eq_refl)
    as [_ [after [H1 [H2 [H3 H4]]]]].
  exists after. split; [exact H1|]. split; [exact H2|].
  split; [exact H3 | exact H4].
Defined.

(** ** What the expiry sweep deletes *)

Lemma storage_delete_other (f g : StorageId) (w : World) :
  f <> g ->
  files (snd (storage_delete f w)) !! g = files w !! g
  /\ conversions (snd (storage_delete f w)) = conversions w.
Proof.
  intros Hne. unfold storage_delete.
  destruct (files w !! f); simpl; [|auto].
  split; [now apply lookup_delete_ne | reflexivity].
Qed.

Lemma db_delete_files (id : ConversionId) (w : World) :
  files (snd (db_delete id w)) = files w.
Proof. unfold db_delete. now destruct (db_get id w). Qed.

Lemma cleanupOne_keeps_file (c : Conversion) (w : World) (g : StorageId) :
  pdfFileId c <> Some g ->
  docxFileId c <> Some g ->
  files (snd (cleanupOne c w)) !! g = files w !! g.
Proof.
  intros Hpdf Hdocx. unfold cleanupOne, try_catch, bind, ret.
  assert (Hstep : forall (o : option StorageId) (v : World),
            o <> Some g ->
            files (snd (match o with
                        | Some f => storage_delete f
                        | None => fun s => (Ok tt, s)
                        end v)) !! g = files v !! g).
  { intros [f|] v Ho; [|reflexivity].
    apply storage_delete_other. congruence. }
  pose proof (Hstep (pdfFileId c) w Hpdf) as H1.
  destruct (match pdfFileId c with
            | Some f => storage_delete f
            | None => fun s => (Ok tt, s)
            end w) as [[[]|e] w1]; simpl in H1; [|exact H1].
  pose proof (Hstep (docxFileId c) w1 Hdocx) as H2.
  destruct (match docxFileId c with
            | Some f => storage_delete f
            | None => fun s => (Ok tt, s)
            end w1) as [[[]|e] w2]; simpl in H2; [|simpl; congruence].
  pose proof (db_delete_files (_id c) w2) as H3.
  destruct (db_delete (_id c) w2) as [[[]|e] w3]; simpl in *; congruence.
Qed.

Lemma cleanupLoop_keeps_file (expired : list Conversion) (n : nat)
    (w : World) (g : StorageId) :
  (forall c, In c expired -> pdfFileId c <> Some g /\ docxFileId c <> Some g) ->
  files (snd (cleanupLoop expired n w)) !! g = files w !! g.
Proof.
  revert n w. induction expired as [|c rest IH]; intros n w Hall; simpl.
  - reflexivity.
  - unfold bind.
    pose proof (cleanupOne_keeps_file c w g) as H1.
    destruct (Hall c (or_introl eq_refl)) as [Hp Hd].
    specialize (H1 Hp Hd).
    assert (Hok : exists b w1, cleanupOne c w = (Ok b, w1)).
    { unfold cleanupOne, try_catch.
      destruct (bind _ _ w) as [[b|e] w1]; simpl; eauto. }
    destruct Hok as [b [w1 Hc]]. rewrite Hc in *. simpl in H1.
    rewrite IH; [exact H1|]. intros c' Hin. apply Hall. now right.
Qed.

(** C4, where the sweep falls short of it: the sweep deletes no blob other
    than those named by the [pdfFileId] or [docxFileId] of an expired job.
    A blob that an expired job names only in [sourceFileIds] is therefore
    still stored after the sweep. *)
Theorem cleanup_deletes_only_pdf_and_docx_blobs :
  forall (ctx : Ctx) (w : World) (g : StorageId),
    (forall c, In c (conversions w) -> isExpired (now ctx) c = true ->
               pdfFileId c <> Some g /\ docxFileId c <> Some g) ->
    files (snd (cleanupExpiredConversions ctx w)) !! g = files w !! g.
Proof.
  intros ctx w g Hall.
  unfold cleanupExpiredConversions, transaction, bind, gets.
  pose proof (cleanupLoop_keeps_file
                (List.filter (isExpired (now ctx)) (conversions w)) 0 w g) as H.
  destruct (cleanupLoop _ 0 w) as [[n|e] w1]; simpl in *; [|reflexivity].
  apply H. intros c Hin. apply filter_In in Hin as [Hin Hexp]. now apply Hall.
Qed.

Lemma cleanup_deletes_only_pdf_and_docx_blobs_witness :
  let run := cleanupExpiredConversions sweepTime imageJobWorld in
  (exists job, db_get 0%nat imageJobWorld = Some job
               /\ isExpired (now sweepTime) job = true
               /\ sourceFileIds job = Some [0%nat; 1%nat]
               /\ pdfFileId job = Some 2%nat)
  /\ fst run = Ok 1%nat
  /\ db_get 0%nat (snd run) = None
  /\ storage_getUrl (snd run) 2%nat = None
  /\ files (snd run) !! 0%nat = Some (ImageBytes 1)
  /\ storage_getUrl (snd run) 1%nat = Some (storageUrl 1%nat).
Proof.
  cbv zeta.
  split; [eexists; split; [reflexivity|]; repeat split|].
  split; [reflexivity|]. split; [reflexivity|]. split; [reflexivity|].
  split; [|reflexivity].
  transitivity (files imageJobWorld !! 0%nat); [|reflexivity].
  apply (cleanup_deletes_only_pdf_and_docx_blobs sweepTime imageJobWorld 0%nat).
  intros c Hin _. vm_compute in Hin. destruct Hin as [<-|[]].
  split; discriminate.
Defined.

(** ** The merge of documents *)

Lemma mergeLoop_appends (mergedPdf : list Page) (pdfBuffers : list Bytes) :
  mergeLoop mergedPdf pdfBuffers
  = mergedPdf ++ concat (map readablePages pdfBuffers).
Proof.
  revert mergedPdf. induction pdfBuffers as [|b rest IH]; intros acc; simpl.
  - now rewrite app_nil_r.
  - unfold readablePages. destruct (PDFLib_load b) as [pages|e].
    + now rewrite IH, app_assoc.
    + now rewrite IH.
Qed.





(** A source that does not open is passed over: with a corrupt file between
    the two documents the merged pages are the same seven. *)
Example mergeLoop_skips_corrupt_source :
  mergeLoop [] [documentA; Corrupt 0; documentB]
  = mergeLoop [] [documentA; documentB]
  /\ length (mergeLoop [] [documentA; Corrupt 0; documentB]) = 7%nat.
Proof. split; reflexivity. Qed.

(** ** The image strategy chain *)

Lemma firstSuccess_throws (attempts : list (Result Bytes)) (e0 : string) :
  isOk (firstSuccess attempts e0) = false <-> allFailed attempts.
Proof.
  revert e0. induction attempts as [|[pdf|e] rest IH]; intros e0; simpl.
  - split; [constructor | reflexivity].
  - split; [discriminate|]. intros H. inversion H; subst. discriminate.
  - rewrite IH. split.
    + intros H. now constructor.
    + intros H. now inversion H.
Qed.

Lemma convertImagesToPdfBuffer_chain (env : Env) (urls : list (option string)) :
  validUrlsOf urls <> [] ->
  convertImagesToPdfBuffer env urls
  = firstSuccess (tierOutcomes env (validUrlsOf urls)) "".
Proof.
  intros Hne. unfold convertImagesToPdfBuffer, tierOutcomes.
  destruct (validUrlsOf urls) as [|u us]; [congruence|].
  destruct (truthy (CLOUDMERSIVE_API_KEY env)) as [k|]; cbn [app firstSuccess].
  - destruct (convertWithCloudmersive env (u :: us) k); [reflexivity|].
    destruct (convertWithPdfKit env (u :: us)); [reflexivity|].
    destruct (createSimplePdfFromUrls env (u :: us)); reflexivity.
  - destruct (convertWithPdfKit env (u :: us)); [reflexivity|].
    destruct (createSimplePdfFromUrls env (u :: us)); reflexivity.
Qed.

(** The run of the image task on an existing image job, branch by branch. *)
Lemma convertImagesToPdf_run (env : Env) (t : Z) (id : ConversionId)
    (w : World) (job : Conversion) :
  db_get id w = Some job ->
  type job = image_to_pdf ->
  convertImagesToPdf env t id w
  = match sourceUrlsOf w job with
    | [] => (Throw "No source images found",
             patched id (failedFields t "No source images found") w)
    | urls =>
        match convertImagesToPdfBuffer env urls with
        | Throw e => (Throw e, patched id (failedFields t e) w)
        | Ok pdf =>
            match upload env pdf with
            | UploadFailed e => (Throw e, patched id (failedFields t e) w)
            | UploadRejected => (Ok None, patched id (completedFields t None) w)
            | UploadStored =>
                (Ok (Some (nextStorageId w)),
                 patched id (completedFields t (Some (nextStorageId w)))
                         (snd (storage_store pdf w)))
            end
        end
    end.
Proof.
  intros Hget Hty.
  unfold convertImagesToPdf, sourceUrlsOf, try_catch, bind, gets, lift, ret,
    throw, getConversionJob, failedFields, completedFields.
  rewrite Hget, Hty. rewrite bool_decide_eq_true_2 by reflexivity. cbn [negb].
  destruct (match sourceFileIds job with
            | Some ids => map (storage_getUrl w) ids
            | None => []
            end) as [|u us].
  { now erewrite updateConversionJob_run by exact Hget. }
  destruct (convertImagesToPdfBuffer env (u :: us)) as [pdf|e].
  2:{ now erewrite updateConversionJob_run by exact Hget. }
  destruct (upload env pdf) as [| |e].
  - unfold storage_store. now erewrite updateConversionJob_run by exact Hget.
  - now erewrite updateConversionJob_run by exact Hget.
  - now erewrite updateConversionJob_run by exact Hget.
Qed.

Lemma convertImagesToPdf_status (env : Env) (t : Z) (id : ConversionId)
    (w : World) (job : Conversion) :
  db_get id w = Some job ->
  type job = image_to_pdf ->
  exists after,
    db_get id (snd (convertImagesToPdf env t id w)) = Some after
    /\ status after = (if imageTaskFails env w job then failed else completed).
Proof.
  intros Hget Hty. rewrite (convertImagesToPdf_run env t id w job Hget Hty).
  unfold imageTaskFails.
  assert (Hstored : forall pdf, db_get id (snd (storage_store pdf w)) = Some job)
    by (intros; exact Hget).
  destruct (sourceUrlsOf w job) as [|u us].
  { cbn [snd]. rewrite db_get_patched, Hget. eexists; split; reflexivity. }
  destruct (convertImagesToPdfBuffer env (u :: us)) as [pdf|e].
  2:{ cbn [snd]. rewrite db_get_patched, Hget. eexists; split; reflexivity. }
  destruct (upload env pdf) as [| |e]; cbn [snd];
    rewrite db_get_patched; rewrite ?Hstored, ?Hget;
    eexists; split; reflexivity.
Qed.

Lemma imageTaskFails_iff (env : Env) (w : World) (job : Conversion) :
  let urls := sourceUrlsOf w job in
  let tiers := tierOutcomes env (validUrlsOf urls) in
  imageTaskFails env w job = true
  <-> validUrlsOf urls = []
      \/ allFailed tiers
      \/ exists pdf e,
           firstSuccess tiers "" = Ok pdf /\ upload env pdf = UploadFailed e.
Proof.
  cbv zeta. unfold imageTaskFails.
  destruct (sourceUrlsOf w job) as [|u us] eqn:Hurls.
  { split; [now left | reflexivity]. }
  destruct (validUrlsOf (u :: us)) as [|v vs] eqn:Hvalid.
  { unfold convertImagesToPdfBuffer. rewrite Hvalid.
    split; [now left | reflexivity]. }
  assert (Hne : validUrlsOf (u :: us) <> []) by (rewrite Hvalid; discriminate).
  rewrite (convertImagesToPdfBuffer_chain env (u :: us) Hne). rewrite Hvalid.
  pose proof (firstSuccess_throws (tierOutcomes env (v :: vs)) "") as Hthrows.
  destruct (firstSuccess (tierOutcomes env (v :: vs)) "") as [pdf|e] eqn:Hfirst.
  - destruct (upload env pdf) as [| |e] eqn:Hup.
    + split; [discriminate|]. intros [H|[H|[pdf' [e' [H1 H2]]]]].
      * discriminate.
      * apply Hthrows in H. discriminate.
      * congruence.
    + split; [discriminate|]. intros [H|[H|[pdf' [e' [H1 H2]]]]].
      * discriminate.
      * apply Hthrows in H. discriminate.
      * congruence.
    + split; [|reflexivity]. intros _. right. right. eauto.
  - split; [|reflexivity]. intros _. right. left. now apply Hthrows.
Qed.

(** C6, as the code has it: on the valid source URLs of an image job the
    chain is the ordered list remote API (only when an API key is
    configured), PDFKit, minimal fallback; the first tier that returns wins
    and a tier that throws hands over to the next.  The task always ends
    the job as failed or completed, and it is failed exactly when there is
    no valid source URL, or every tier of the chain has thrown, or the
    upload of the produced document throws. *)
Theorem image_chain_in_order_and_job_failure_cases :
  forall (env : Env) (t : Z) (id : ConversionId) (w : World)
         (job : Conversion),
    db_get id w = Some job ->
    type job = image_to_pdf ->
    let urls := sourceUrlsOf w job in
    let tiers := tierOutcomes env (validUrlsOf urls) in
    (validUrlsOf urls <> [] ->
     convertImagesToPdfBuffer env urls = firstSuccess tiers "")
    /\ exists after,
         db_get id (runTask env t (convertImagesToPdfTask id) w) = Some after
         /\ (status after = failed \/ status after = completed)
         /\ (status after = failed
             <-> validUrlsOf urls = []
                 \/ allFailed tiers
                 \/ exists pdf e,
                      firstSuccess tiers "" = Ok pdf
                      /\ upload env pdf = UploadFailed e).
Proof.
  intros env t id w job Hget Hty urls tiers.
  split; [apply convertImagesToPdfBuffer_chain|].
  destruct (convertImagesToPdf_status env t id w job Hget Hty)
    as [after [Hafter Hstatus]].
  exists after. split; [exact Hafter|].
  pose proof (imageTaskFails_iff env w job) as Hiff. cbv zeta in Hiff.
  fold urls in Hiff. fold tiers in Hiff.
  destruct (imageTaskFails env w job); rewrite Hstatus.
  - split; [now left|]. split; [intros _; now apply Hiff | reflexivity].
  - split; [now right|]. split; [discriminate|].
    intros H. apply Hiff in H. discriminate.
Qed.

Lemma image_chain_in_order_and_job_failure_cases_witness :
  exists after,
    db_get 0%nat (runTask (pdfkitEnv UploadStored) 3000
                          (convertImagesToPdfTask 0%nat) imagePendingWorld)
    = Some after
    /\ (status after = failed \/ status after = completed).
Proof.
  destruct (image_chain_in_order_and_job_failure_cases
              (pdfkitEnv UploadStored) 3000 0%nat imagePendingWorld
              imagePendingJob eq_refl eq_refl)
    as [_ [after [H1 [H2 _]]]].
  exists after. split; [exact H1 | exact H2].
Defined.

(** C6 as stated fails: the PDFKit tier returns the two-page document, the
    upload of it throws, and the job is marked failed although a tier of the
    chain has succeeded. *)
Lemma image_job_failed_though_a_tier_succeeded :
  let env := pdfkitEnv (UploadFailed "upload refused") in
  convertWithPdfKit env [storageUrl 0%nat; storageUrl 1%nat]
  = Ok (PdfBytes [[DrawImage 1]; [DrawImage 2]])
  /\ ~ allFailed
       (tierOutcomes env
          (validUrlsOf (sourceUrlsOf imagePendingWorld imagePendingJob)))
  /\ exists after,
       db_get 0%nat (runTask env 3000 (convertImagesToPdfTask 0%nat)
                             imagePendingWorld) = Some after
       /\ status after = failed
       /\ error after = Some "upload refused".
Proof.
  cbv zeta. split; [reflexivity|]. split.
  - intros H. vm_compute in H. inversion H as [|r rs Hr _]; subst.
    discriminate Hr.
  - eexists. split; [reflexivity|]. split; reflexivity.
Qed.

(** ** The minimal fallback document *)





(** ** The batched merge of the remote-API strategy *)

Lemma request_of_batch (current : Bytes) (batch : list Bytes) :
  (length batch <= 9)%nat ->
  omap id [ Some current; batch !! 0%nat; slot batch 1; slot batch 2;
            slot batch 3; slot batch 4; slot batch 5; slot batch 6;
            slot batch 7; slot batch 8 ]
  = current :: batch.
Proof.
  intros Hlen.
  destruct batch as [|b0 [|b1 [|b2 [|b3 [|b4 [|b5 [|b6 [|b7 [|b8 [|b9 more]]]]]]]]]];
    try reflexivity.
  simpl in Hlen. lia.
Qed.

Lemma request_of_first (page0 page1 : Bytes) (rest : list Bytes) :
  let pdfPages := page0 :: page1 :: rest in
  omap id [ Some page0; Some page1; slot pdfPages 2; slot pdfPages 3;
            slot pdfPages 4; slot pdfPages 5; slot pdfPages 6;
            slot pdfPages 7; slot pdfPages 8; slot pdfPages 9 ]
  = firstn 10 pdfPages.
Proof.
  cbv zeta.
  destruct rest as [|b2 [|b3 [|b4 [|b5 [|b6 [|b7 [|b8 [|b9 more]]]]]]]];
    reflexivity.
Qed.

Lemma slice9_facts (pdfPages : list Bytes) (i : nat) :
  (i < length pdfPages)%nat ->
  slice9 pdfPages i <> []
  /\ (length (slice9 pdfPages i) <= 9)%nat
  /\ skipn i pdfPages = slice9 pdfPages i ++ skipn (i + 9) pdfPages
  /\ (skipn (i + 9) pdfPages <> [] -> length (slice9 pdfPages i) = 9%nat).
Proof.
  intros Hi. unfold slice9.
  assert (Hskip : length (skipn i pdfPages) = (length pdfPages - i)%nat)
    by apply length_skipn.
  split; [|split; [|split]].
  - intros H. apply (f_equal (@length Bytes)) in H.
    rewrite length_firstn, Hskip in H. cbn [length] in H. lia.
  - rewrite length_firstn. lia.
  - rewrite (Nat.add_comm i 9), <- skipn_skipn. symmetry. apply firstn_skipn.
  - intros Hrest. rewrite length_firstn, Hskip.
    assert (length (skipn (i + 9) pdfPages) <> 0%nat)
      by (destruct (skipn (i + 9) pdfPages); [congruence | discriminate]).
    rewrite length_skipn in H. lia.
Qed.

(** The batch loop makes exactly the rounds of [Rounds] over the documents
    from index [i] on, whenever the fuel covers them. *)
Lemma mergeBatches_rounds (api : Cloudmersive) (pdfPages : list Bytes) :
  forall (fuel i : nat) (currentPdf : Bytes) (log : list MergeCall),
    (length pdfPages - i <= fuel)%nat ->
    exists calls,
      snd (mergeBatches fuel api pdfPages i currentPdf log) = log ++ calls
      /\ Forall atMostTen calls
      /\ Rounds api currentPdf (skipn i pdfPages) (map inputFiles calls)
                (fst (mergeBatches fuel api pdfPages i currentPdf log)).
Proof.
  induction fuel as [|fuel IH]; intros i cur log Hfuel.
  - exists []. cbn [mergeBatches ret fst snd map].
    rewrite app_nil_r, skipn_all2 by lia.
    repeat split; constructor.
  - cbn [mergeBatches]. destruct (i <? length pdfPages)%nat eqn:Hi.
    2:{ apply Nat.ltb_ge in Hi. exists []. cbn [ret fst snd map].
        rewrite app_nil_r, skipn_all2 by lia. repeat split; constructor. }
    apply Nat.ltb_lt in Hi.
    destruct (slice9_facts pdfPages i Hi) as [Hne [Hlen [Hsplit Hfull]]].
    pose proof (request_of_batch cur (slice9 pdfPages i) Hlen) as Hreq.
    set (batch := slice9 pdfPages i) in *.
    set (request := [ Some cur; batch !! 0%nat; slot batch 1; slot batch 2;
                      slot batch 3; slot batch 4; slot batch 5; slot batch 6;
                      slot batch 7; slot batch 8 ]) in *.
    unfold bind, callMulti.
    destruct (mergeDocumentPdfMulti api request) as [merged|e] eqn:Hcall.
    + destruct (IH (i + 9)%nat merged (log ++ [MultiCall request]))
        as [calls [Hlog [Hten Hrounds]]]; [lia|].
      exists (MultiCall request :: calls).
      split; [rewrite Hlog, <- app_assoc; reflexivity|].
      split.
      { constructor; [|exact Hten].
        unfold atMostTen. cbn [inputFiles]. rewrite Hreq. simpl. lia. }
      cbn [map inputFiles]. rewrite Hreq, Hsplit.
      apply rounds_next with (merged := merged); eauto.
    + exists [MultiCall request]. cbn [fst snd].
      split; [reflexivity|]. split.
      { constructor; [|constructor].
        unfold atMostTen. cbn [inputFiles]. rewrite Hreq. simpl. lia. }
      cbn [map inputFiles]. rewrite Hreq, Hsplit.
      apply rounds_failed; eauto.
Qed.

Lemma pagesOf_mergedBytes (inputs : list Bytes) :
  pagesOf (mergedBytes inputs) = concat (map pagesOf inputs).
Proof. reflexivity. Qed.

(** Under a faithful merge service the rounds succeed and their output has
    the pages merged so far followed by those of every remaining
    document. *)
Lemma rounds_faithful (api : Cloudmersive) (current : Bytes)
    (rest : list Bytes) (calls : list (list Bytes)) (result : Result Bytes) :
  MergesFaithfully api ->
  Rounds api current rest calls result ->
  exists out,
    result = Ok out
    /\ pagesOf out = pagesOf current ++ concat (map pagesOf rest).
Proof.
  intros [Hmulti _] H.
  induction H as [cur
                 |cur batch rest merged calls result _ _ _ [req [Hreq Hcall]] _ IH
                 |cur batch rest e _ _ [req [Hreq Hcall]]].
  - exists cur. split; [reflexivity|]. simpl. now rewrite app_nil_r.
  - destruct IH as [out [-> Hout]]. exists out. split; [reflexivity|].
    rewrite Hmulti, Hreq in Hcall. injection Hcall as <-.
    rewrite Hout, pagesOf_mergedBytes. cbn [map concat].
    now rewrite map_app, concat_app, app_assoc.
  - rewrite Hmulti in Hcall. discriminate.
Qed.

Lemma mergePdfPages_batches (api : Cloudmersive) (pdfPages : list Bytes)
    (log : list MergeCall) :
  exists calls,
    snd (mergePdfPages api pdfPages log) = log ++ calls
    /\ Forall atMostTen calls
    /\ ((10 < length pdfPages)%nat ->
        FoldsInBatches api pdfPages calls
                       (fst (mergePdfPages api pdfPages log)))
    /\ (MergesFaithfully api -> pdfPages <> [] ->
        exists out,
          fst (mergePdfPages api pdfPages log) = Ok out
          /\ pagesOf out = concat (map pagesOf pdfPages)).
Proof.
  destruct pdfPages as [|p0 [|p1 [|p2 rest]]].
  - exists []. cbn [mergePdfPages throw fst snd]. rewrite app_nil_r.
    split; [reflexivity|]. split; [constructor|].
    split; [simpl; lia | intros _ H; congruence].
  - exists []. cbn [mergePdfPages ret fst snd]. rewrite app_nil_r.
    split; [reflexivity|]. split; [constructor|].
    split; [simpl; lia|]. intros _ _. exists p0. split; [reflexivity|].
    simpl. now rewrite app_nil_r.
  - exists [PairCall p0 p1]. cbn [mergePdfPages callPair fst snd].
    split; [reflexivity|].
    split; [constructor; [unfold atMostTen; simpl; lia | constructor]|].
    split; [simpl; lia|]. intros [_ Hpair] _. rewrite Hpair.
    eexists. split; [reflexivity|]. reflexivity.
  - pose proof (request_of_first p0 p1 (p2 :: rest)) as Hreq. cbv zeta in Hreq.
    set (pdfPages := p0 :: p1 :: p2 :: rest) in *.
    set (request := [ Some p0; Some p1; slot pdfPages 2; slot pdfPages 3;
                      slot pdfPages 4; slot pdfPages 5; slot pdfPages 6;
                      slot pdfPages 7; slot pdfPages 8; slot pdfPages 9 ]) in *.
    assert (Hrun : mergePdfPages api pdfPages log
                   = (let* mergedPdf := callMulti api request in
                      if (10 <? length pdfPages)%nat
                      then mergeBatches (length pdfPages) api pdfPages 10 mergedPdf
                      else ret mergedPdf)%run log) by reflexivity.
    rewrite Hrun. clear Hrun. unfold bind, callMulti.
    assert (Hten : atMostTen (MultiCall request)).
    { unfold atMostTen. cbn [inputFiles]. rewrite Hreq, length_firstn. lia. }
    destruct (mergeDocumentPdfMulti api request) as [merged|e] eqn:Hcall.
    + destruct (10 <? length pdfPages)%nat eqn:Hbig.
      * destruct (mergeBatches_rounds api pdfPages (length pdfPages) 10 merged
                    (log ++ [MultiCall request]))
          as [calls [Hlog [Hcalls Hrounds]]]; [lia|].
        exists (MultiCall request :: calls).
        split; [rewrite Hlog, <- app_assoc; reflexivity|].
        split; [now constructor|]. split.
        { intros _. exists request, calls. split; [reflexivity|].
          split; [exact Hreq|]. now rewrite Hcall. }
        intros Hfaithful _.
        destruct (rounds_faithful api _ _ _ _ Hfaithful Hrounds)
          as [out [Hout Hpages]].
        exists out. split; [exact Hout|]. rewrite Hpages.
        destruct Hfaithful as [Hmulti _].
        assert (Hm : merged = mergedBytes (firstn 10 pdfPages))
          by (rewrite Hmulti, Hreq in Hcall; congruence).
        rewrite Hm, pagesOf_mergedBytes.
        rewrite <- concat_app, <- map_app. now rewrite firstn_skipn.
      * apply Nat.ltb_ge in Hbig. exists [MultiCall request].
        cbn [ret fst snd]. split; [reflexivity|].
        split; [now constructor|]. split; [lia|].
        intros [Hmulti _] _.
        assert (Hm : merged = mergedBytes (firstn 10 pdfPages))
          by (rewrite Hmulti, Hreq in Hcall; congruence).
        eexists. split; [reflexivity|].
        rewrite Hm, pagesOf_mergedBytes. now rewrite firstn_all2 by lia.
    + exists [MultiCall request]. cbn [fst snd]. split; [reflexivity|].
      split; [now constructor|]. split.
      { intros _. exists request, []. split; [reflexivity|].
        split; [exact Hreq|]. now rewrite Hcall. }
      intros [Hmulti _] _. rewrite Hmulti in Hcall. discriminate.
Qed.

(** C7: when the images have been converted to the documents [pdfPages],
    every call the strategy makes to a merge endpoint passes at most ten
    files; with more than ten documents the first call merges the first
    ten and each further round passes the previous round's output as its
    first file together with the next nine documents (fewer in the last
    round); and with a merge service that does what it says, the result
    holds the pages of all the documents, in order. *)
Theorem convertImagesWithApi_merges_in_batches_of_ten :
  forall (api : Cloudmersive) (apiKey : string) (imageBuffers : list Bytes)
         (pdfPages : list Bytes) (log : list MergeCall),
    createPdfPages api imageBuffers = Ok pdfPages ->
    let run := convertImagesWithApi api apiKey imageBuffers log in
    exists calls,
      snd run = log ++ calls
      /\ Forall atMostTen calls
      /\ ((10 < length pdfPages)%nat ->
          FoldsInBatches api pdfPages calls (fst run))
      /\ (MergesFaithfully api -> pdfPages <> [] ->
          exists out,
            fst run = Ok out
            /\ pagesOf out = concat (map pagesOf pdfPages)).
Proof.
  intros api apiKey imageBuffers pdfPages log Hpages run.
  assert (Hrun : run = mergePdfPages api pdfPages log).
  { unfold run, convertImagesWithApi, bind, lift. now rewrite Hpages. }
  rewrite Hrun. apply mergePdfPages_batches.
Qed.

Lemma convertImagesWithApi_merges_in_batches_of_ten_witness :
  exists calls,
    snd (convertImagesWithApi faithfulApi "key" twelveImages []) = calls
    /\ map (fun c => length (inputFiles c)) calls = [10%nat; 3%nat]
    /\ Forall atMostTen calls
    /\ fst (convertImagesWithApi faithfulApi "key" twelveImages [])
       = Ok (PdfBytes (map (fun i => [DrawImage i]) (seq 1 12))).
Proof.
  destruct (convertImagesWithApi_merges_in_batches_of_ten
              faithfulApi "key" twelveImages
              (map (fun i => PdfBytes [[DrawImage i]]) (seq 1 12)) []
              eq_refl)
    as [calls [Hlog [Hten _]]].
  exists calls. cbn [app] in Hlog.
  split; [exact Hlog|]. split; [rewrite <- Hlog; reflexivity|].
  split; [exact Hten | reflexivity].
Defined.

(** * Further properties of the modelled code *)

(** ** Creation and reading back *)

Lemma find_app_other (j : ConversionId) (new : Conversion)
    (cs : list Conversion) :
  j <> _id new ->
  List.find (fun c => Nat.eqb (_id c) j) (cs ++ [new])
  = List.find (fun c => Nat.eqb (_id c) j) cs.
Proof.
  intros Hne. induction cs as [|c cs IH]; simpl.
  - assert (Nat.eqb (_id new) j = false) as -> by (apply Nat.eqb_neq; congruence).
    reflexivity.
  - destruct (Nat.eqb (_id c) j); [reflexivity | exact IH].
Qed.

Lemma startConversion_run (ctx : Ctx) (uid : string) (pdf : StorageId)
    (name : string) (w : World) :
  truthy (auth ctx) = Some uid ->
  startConversion ctx pdf name w
  = (Ok (nextConversionId w),
     inserted (newConversion uid pdf_to_word (Some pdf) None name (now ctx)
                             (nextConversionId w))
              (convertPdfToWordTask (nextConversionId w)) w).
Proof.
  intros H. unfold startConversion, transaction. rewrite H. reflexivity.
Qed.

Lemma startImageToPdfConversion_run (ctx : Ctx) (uid : string)
    (sources : list StorageId) (name : string) (w : World) :
  truthy (auth ctx) = Some uid ->
  startImageToPdfConversion ctx sources name w
  = (Ok (nextConversionId w),
     inserted (newConversion uid image_to_pdf None (Some sources) name (now ctx)
                             (nextConversionId w))
              (convertImagesToPdfTask (nextConversionId w)) w).
Proof.
  intros H. unfold startImageToPdfConversion, transaction. rewrite H.
  reflexivity.
Qed.

Lemma startPdfMergerConversion_run (ctx : Ctx) (uid : string)
    (sources : list StorageId) (name : string) (w : World) :
  truthy (auth ctx) = Some uid ->
  startPdfMergerConversion ctx sources name w
  = (Ok (nextConversionId w),
     inserted (newConversion uid pdf_merger None (Some sources) name (now ctx)
                             (nextConversionId w))
              (mergePdfFilesTask (nextConversionId w)) w).
Proof.
  intros H. unfold startPdfMergerConversion, transaction. rewrite H.
  reflexivity.
Qed.

Lemma inserted_createdAs (job : ConversionId -> Conversion)
    (task : ConversionId -> Task) (w : World) :
  idsBelowCounter w ->
  (forall id, _id (job id) = id) ->
  (forall id, status (job id) = processing) ->
  (forall id, error (job id) = None) ->
  (forall id, expiresAt (job id) - createdAt (job id) = 3600000) ->
  createdAs job task w
    (Ok (nextConversionId w),
     inserted (job (nextConversionId w)) (task (nextConversionId w)) w).
Proof.
  intros Hids Hid Hst Herr Httl. unfold createdAs. cbn [fst snd].
  split; [reflexivity|].
  split; [unfold getConversionJob, db_get; simpl; now apply find_fresh|].
  split; [apply Hst|]. split; [apply Herr|]. split; [apply Httl|].
  split; [reflexivity|].
  split.
  { intros j Hj. unfold db_get; simpl. apply find_app_other.
    rewrite Hid. exact Hj. }
  split; [reflexivity|].
  unfold idsBelowCounter in *. simpl. apply Forall_app. split.
  - eapply Forall_impl; [exact Hids|]. simpl. intros c Hc. lia.
  - constructor; [rewrite Hid; lia | constructor].
Qed.

(** X1: for an authenticated caller, each of the three creation mutations
    returns the table's next id; reading that id back gives the job just
    inserted, which is processing, has no error and expires exactly one
    hour after its creation time; the matching task is appended to the
    scheduler queue, and no other job and no file is touched. *)
Theorem creation_reads_back_with_one_hour_ttl :
  forall (ctx : Ctx) (uid : string) (w : World) (pdf : StorageId)
         (sources : list StorageId) (name : string),
    truthy (auth ctx) = Some uid ->
    idsBelowCounter w ->
    createdAs (newConversion uid pdf_to_word (Some pdf) None name (now ctx))
              convertPdfToWordTask w (startConversion ctx pdf name w)
    /\ createdAs (newConversion uid image_to_pdf None (Some sources) name
                                (now ctx))
                 convertImagesToPdfTask w
                 (startImageToPdfConversion ctx sources name w)
    /\ createdAs (newConversion uid pdf_merger None (Some sources) name
                                (now ctx))
                 mergePdfFilesTask w
                 (startPdfMergerConversion ctx sources name w).
Proof.
  intros ctx uid w pdf sources name Hauth Hids.
  rewrite (startConversion_run ctx uid pdf name w Hauth).
  rewrite (startImageToPdfConversion_run ctx uid sources name w Hauth).
  rewrite (startPdfMergerConversion_run ctx uid sources name w Hauth).
  split; [|split]; apply inserted_createdAs; try exact Hids;
    intros id; try reflexivity;
    unfold newConversion; cbn [expiresAt createdAt]; lia.
Qed.

Lemma creation_reads_back_with_one_hour_ttl_witness :
  createdAs (newConversion "bob" image_to_pdf None (Some [0%nat]) "scan.pdf"
                           2000)
            convertImagesToPdfTask aliceWorld
            (startImageToPdfConversion bob [0%nat] "scan.pdf" aliceWorld).
Proof.
  apply (creation_reads_back_with_one_hour_ttl bob "bob" aliceWorld 0%nat
           [0%nat] "scan.pdf").
  - reflexivity.
  - repeat constructor.
Defined.

(** ** Acting on a job that is not there *)

(** X2: when no job has the given id, the two readers return null, the two
    patching mutations throw, and each of the three tasks throws; none of
    them writes anything. *)
Theorem missing_job_throws_and_writes_nothing :
  forall (env : Env) (ctx : Ctx) (t : Z) (id : ConversionId) (w : World),
    db_get id w = None ->
    getConversion ctx id w = None
    /\ getConversionJob ctx id w = None
    /\ (forall success docx,
          markConversionComplete ctx id success docx w
          = (Throw "Conversion not found", w))
    /\ (forall pdf st err,
          exists e, updateConversionJob ctx id pdf st err w = (Throw e, w))
    /\ convertPdfToWord env t id w = (Throw "Conversion not found", w)
    /\ convertImagesToPdf env t id w = (Throw "Invalid conversion job", w)
    /\ exists e, mergePdfFiles env t id w = (Throw e, w).
Proof.
  intros env ctx t id w H.
  assert (Hmark : forall c success docx,
            markConversionComplete c id success docx w
            = (Throw "Conversion not found", w)).
  { intros c success docx.
    unfold markConversionComplete, transaction, bind, gets. now rewrite H. }
  assert (Hupd : forall c pdf st err,
            exists e, updateConversionJob c id pdf st err w = (Throw e, w)).
  { intros c pdf st err. unfold updateConversionJob, transaction, db_patch.
    rewrite H. eauto. }
  split; [unfold getConversion; now rewrite H|].
  split; [exact H|]. split; [apply Hmark|]. split; [apply Hupd|].
  split; [|split].
  - unfold convertPdfToWord, try_catch, bind, gets, getConversion, throw.
    rewrite H. now rewrite Hmark.
  - unfold convertImagesToPdf, bind, gets, getConversionJob. now rewrite H.
  - unfold mergePdfFiles, try_catch, bind, gets, getConversion, throw.
    rewrite H.
    destruct (Hupd (taskCtx t) None (Some failed) (Some "Conversion not found"))
      as [e He].
    rewrite He. eauto.
Qed.

Lemma missing_job_throws_and_writes_nothing_witness :
  convertPdfToWord offlineEnv 3000 7%nat aliceWorld
  = (Throw "Conversion not found", aliceWorld)
  /\ convertImagesToPdf offlineEnv 3000 7%nat aliceWorld
     = (Throw "Invalid conversion job", aliceWorld).
Proof.
  destruct (missing_job_throws_and_writes_nothing offlineEnv alice 3000 7%nat
              aliceWorld eq_refl)
    as [_ [_ [_ [_ [H1 [H2 _]]]]]].
  split; [exact H1 | exact H2].
Defined.

(** X3: the image task refuses a job of another type before its handler is
    in place: it throws and the job is left exactly as it was, with no
    terminal write. *)
Theorem convertImagesToPdf_refuses_other_types :
  forall (env : Env) (t : Z) (id : ConversionId) (w : World)
         (job : Conversion),
    db_get id w = Some job ->
    type job <> image_to_pdf ->
    convertImagesToPdf env t id w = (Throw "Invalid conversion job", w).
Proof.
  intros env t id w job Hget Hty.
  unfold convertImagesToPdf, bind, gets, getConversionJob. rewrite Hget.
  now rewrite bool_decide_eq_false_2.
Qed.

Lemma convertImagesToPdf_refuses_other_types_witness :
  convertImagesToPdf offlineEnv 3000 0%nat aliceWorld
  = (Throw "Invalid conversion job", aliceWorld)
  /\ (exists job, db_get 0%nat aliceWorld = Some job /\ status job = processing).
Proof.
  split.
  - apply (convertImagesToPdf_refuses_other_types offlineEnv 3000 0%nat
             aliceWorld aliceJob eq_refl).
    discriminate.
  - eexists. split; reflexivity.
Defined.

(** ** Newest first *)

Lemma listConversions_inserted (ctx : Ctx) (job : Conversion) (task : Task)
    (w : World) (ty : ConversionType) :
  listConversions ctx ty (inserted job task w)
  = match truthy (auth ctx) with
    | None => []
    | Some uid =>
        if by_user_and_type uid ty job
        then listItem (inserted job task w) job :: listConversions ctx ty w
        else listConversions ctx ty w
    end.
Proof.
  unfold listConversions. destruct (truthy (auth ctx)) as [uid|]; [|reflexivity].
  cbn [inserted conversions]. rewrite List.filter_app, rev_app_distr.
  cbn [List.filter].
  assert (Hold : map (listItem (inserted job task w))
                     (rev (List.filter (by_user_and_type uid ty) (conversions w)))
                 = map (listItem w)
                     (rev (List.filter (by_user_and_type uid ty) (conversions w)))).
  { apply map_ext. intros c. now apply listItem_files. }
  destruct (by_user_and_type uid ty job); cbn [rev app map]; now rewrite Hold.
Qed.

Lemma inserted_listedFirstFor (ctx other : Ctx) (uid : string)
    (job : Conversion) (task : Task) (w : World) :
  truthy (auth ctx) = Some uid ->
  truthy (auth other) <> Some uid ->
  userId job = uid ->
  listedFirstFor ctx other job w (inserted job task w).
Proof.
  intros Hauth Hother Huid. split.
  - intros ty. rewrite listConversions_inserted, Hauth.
    unfold by_user_and_type. rewrite bool_decide_eq_true_2 by exact Huid.
    reflexivity.
  - intros ty. rewrite listConversions_inserted.
    destruct (truthy (auth other)) as [uid'|] eqn:Ho.
    + unfold by_user_and_type.
      rewrite bool_decide_eq_false_2 by congruence. reflexivity.
    + unfold listConversions. now rewrite Ho.
Qed.

(** X4: right after a creation, the creator's list for the job's type has
    the new job in front of what it listed before, the creator's lists for
    the other types are unchanged, and so is every list of a caller with
    another identity. *)
Theorem created_job_is_listed_first :
  forall (ctx other : Ctx) (uid : string) (w : World) (pdf : StorageId)
         (sources : list StorageId) (name : string),
    truthy (auth ctx) = Some uid ->
    truthy (auth other) <> Some uid ->
    let id := nextConversionId w in
    listedFirstFor ctx other
      (newConversion uid pdf_to_word (Some pdf) None name (now ctx) id)
      w (snd (startConversion ctx pdf name w))
    /\ listedFirstFor ctx other
         (newConversion uid image_to_pdf None (Some sources) name (now ctx) id)
         w (snd (startImageToPdfConversion ctx sources name w))
    /\ listedFirstFor ctx other
         (newConversion uid pdf_merger None (Some sources) name (now ctx) id)
         w (snd (startPdfMergerConversion ctx sources name w)).
Proof.
  intros ctx other uid w pdf sources name Hauth Hother id.
  rewrite (startConversion_run ctx uid pdf name w Hauth).
  rewrite (startImageToPdfConversion_run ctx uid sources name w Hauth).
  rewrite (startPdfMergerConversion_run ctx uid sources name w Hauth).
  cbn [snd].
  split; [|split]; now apply (inserted_listedFirstFor ctx other uid).
Qed.

Lemma created_job_is_listed_first_witness :
  listedFirstFor bob alice
    (newConversion "bob" image_to_pdf None (Some [0%nat]) "scan.pdf" 2000 2%nat)
    aliceAndBobWorld
    (snd (startImageToPdfConversion bob [0%nat] "scan.pdf" aliceAndBobWorld)).
Proof.
  apply (created_job_is_listed_first bob alice "bob" aliceAndBobWorld 0%nat
           [0%nat] "scan.pdf").
  - reflexivity.
  - discriminate.
Defined.

(** ** What each task leaves on the job *)

Lemma coreFieldsKept_update (t : Z) (pdf : option StorageId)
    (st : option Status) (err : option string) (job : Conversion) :
  coreFieldsKept job (applyPatch (updateConversionJobFields t pdf st err) job).
Proof. unfold coreFieldsKept. now repeat split. Qed.

Lemma coreFieldsKept_mark (t : Z) (success : bool) (docx : option StorageId)
    (job : Conversion) :
  coreFieldsKept job
    (applyPatch (markConversionCompleteFields t success docx) job).
Proof. unfold coreFieldsKept. now repeat split. Qed.

Lemma db_get_stored (id : ConversionId) (b : Bytes) (w : World) :
  db_get id (snd (storage_store b w)) = db_get id w.
Proof. reflexivity. Qed.

Lemma files_patched (id : ConversionId) (p : PartialFields) (w : World) :
  files (patched id p w) = files w.
Proof. reflexivity. Qed.

Lemma files_stored (b : Bytes) (w : World) :
  files (snd (storage_store b w)) !! nextStorageId w = Some b.
Proof. unfold storage_store. cbn [snd files]. apply lookup_insert_eq. Qed.

(** The run of the document-to-Word task on an existing job. *)
Lemma convertPdfToWord_run (env : Env) (t : Z) (id : ConversionId)
    (w : World) (job : Conversion) :
  db_get id w = Some job ->
  convertPdfToWord env t id w
  = match wordAttempt env w job with
    | Ok docx =>
        (Ok (nextStorageId w),
         patched id (markConversionCompleteFields t true
                                                  (Some (nextStorageId w)))
                 (snd (storage_store docx w)))
    | Throw e =>
        (Throw e, patched id (markConversionCompleteFields t false None) w)
    end.
Proof.
  intros Hget.
  assert (Hfail : forall e,
            (markConversionComplete (taskCtx t) id false None ;;
             throw (A := StorageId) e)%run w
            = (Throw e, patched id (markConversionCompleteFields t false None) w)).
  { intros e. unfold bind, throw.
    now rewrite (markConversionComplete_run (taskCtx t) w id job false None Hget). }
  unfold convertPdfToWord, wordAttempt, try_catch.
  unfold bind at 1. unfold gets at 1. unfold getConversion at 1. rewrite Hget.
  cbn [cr_conversion].
  destruct (truthy (CLOUDMERSIVE_API_KEY env)) as [key|]; [|apply Hfail].
  destruct (pdfFileId job) as [pdfFile|]; [|apply Hfail].
  unfold bind at 1. unfold gets at 1.
  destruct (truthy (storage_getUrl w pdfFile)) as [url|]; [|apply Hfail].
  destruct (fetch env url) as [e|[|] st body]; [apply Hfail| |apply Hfail].
  unfold bind at 1. unfold lift at 1.
  destruct (convertDocumentPdfToDocx env body) as [docx|e]; [|apply Hfail].
  unfold bind, ret.
  change (storage_store docx w)
    with (Ok (nextStorageId w), snd (storage_store docx w)).
  cbv beta iota.
  now erewrite markConversionComplete_run by (rewrite db_get_stored; exact Hget).
Qed.

(** X5: on an existing job the document-to-Word task always makes a
    terminal write that agrees with its own outcome.  When it returns an
    id, the job is completed, [docxFileId] is that id, and the blob stored
    under it is what the conversion service returned for the downloaded
    source.  When it throws, the job is failed, no blob is stored, and
    [docxFileId] is untouched.  On neither path is the [error] field
    written. *)
Theorem convertPdfToWord_terminal_write :
  forall (env : Env) (t : Z) (id : ConversionId) (w : World)
         (job : Conversion),
    db_get id w = Some job ->
    let run := convertPdfToWord env t id w in
    exists after,
      db_get id (snd run) = Some after
      /\ coreFieldsKept job after
      /\ error after = error job
      /\ pdfFileId after = pdfFileId job
      /\ match fst run with
         | Ok sid =>
             status after = completed
             /\ docxFileId after = Some sid
             /\ exists pdfFile statusLine pdfBuffer docx,
                  pdfFileId job = Some pdfFile
                  /\ fetch env (storageUrl pdfFile)
                     = Response true statusLine pdfBuffer
                  /\ convertDocumentPdfToDocx env pdfBuffer = Ok docx
                  /\ files (snd run) !! sid = Some docx
         | Throw e =>
             status after = failed
             /\ docxFileId after = docxFileId job
             /\ files (snd run) = files w
         end.
Proof.
  intros env t id w job Hget run. unfold run.
  rewrite (convertPdfToWord_run env t id w job Hget).
  destruct (wordAttempt env w job) as [docx|e] eqn:Hattempt; cbn [fst snd].
  - rewrite db_get_patched, db_get_stored, Hget. cbn [option_map].
    eexists. split; [reflexivity|].
    split; [apply coreFieldsKept_mark|].
    split; [reflexivity|]. split; [reflexivity|].
    split; [reflexivity|]. split; [reflexivity|].
    unfold wordAttempt in Hattempt.
    destruct (truthy (CLOUDMERSIVE_API_KEY env)); [|discriminate].
    destruct (pdfFileId job) as [pdfFile|]; [|discriminate].
    unfold storage_getUrl in Hattempt.
    destruct (files w !! pdfFile); [|discriminate].
    rewrite truthy_storageUrl in Hattempt.
    destruct (fetch env (storageUrl pdfFile)) as [e|[|] st body] eqn:Hfetch;
      try discriminate.
    exists pdfFile, st, body, docx.
    split; [reflexivity|]. split; [exact Hfetch|]. split; [exact Hattempt|].
    rewrite files_patched. apply files_stored.
  - rewrite db_get_patched, Hget. cbn [option_map].
    eexists. split; [reflexivity|].
    split; [apply coreFieldsKept_mark|].
    repeat split.
Qed.

Lemma convertPdfToWord_terminal_write_witness :
  exists after,
    db_get 0%nat (snd (convertPdfToWord wordEnv 3000 0%nat aliceWorld))
    = Some after
    /\ status after = completed
    /\ docxFileId after = Some 1%nat
    /\ error after = None
    /\ files (snd (convertPdfToWord wordEnv 3000 0%nat aliceWorld)) !! 1%nat
       = Some (DocxBytes [[DrawText 0 0 12 "report"]]).
Proof.
  destruct (convertPdfToWord_terminal_write wordEnv 3000 0%nat aliceWorld
              aliceJob eq_refl)
    as [after [H1 [_ [H2 [_ H3]]]]].
  assert (Hrun : fst (convertPdfToWord wordEnv 3000 0%nat aliceWorld)
                 = Ok 1%nat) by reflexivity.
  rewrite Hrun in H3. destruct H3 as [H3 [H4 _]].
  exists after. split; [exact H1|]. split; [exact H3|]. split; [exact H4|].
  split; [exact H2 | reflexivity].
Defined.

Lemma truthy_messageOr (fallback e : string) :
  fallback <> EmptyString ->
  truthy (Some (messageOr fallback e)) = Some (messageOr fallback e).
Proof.
  intros H. destruct e; simpl; [|reflexivity].
  destruct fallback; [congruence | reflexivity].
Qed.

(** X6: on an existing image job the image task always makes a terminal
    write that agrees with its own outcome.  When it returns a blob id, the
    job is completed, [pdfFileId] is that id and the blob is the document
    the chain produced.  When the upload answers without an id, the job is
    still marked completed and [pdfFileId] keeps its old value.  When it
    throws, the job is failed, no blob is stored, and [error] is set to the
    thrown message, or to "Unknown error" when that message is empty. *)
Theorem convertImagesToPdf_terminal_write :
  forall (env : Env) (t : Z) (id : ConversionId) (w : World)
         (job : Conversion),
    db_get id w = Some job ->
    type job = image_to_pdf ->
    let run := convertImagesToPdf env t id w in
    exists after,
      db_get id (snd run) = Some after
      /\ coreFieldsKept job after
      /\ docxFileId after = docxFileId job
      /\ match fst run with
         | Ok (Some sid) =>
             status after = completed
             /\ pdfFileId after = Some sid
             /\ error after = error job
             /\ exists pdf,
                  convertImagesToPdfBuffer env (sourceUrlsOf w job) = Ok pdf
                  /\ files (snd run) !! sid = Some pdf
         | Ok None =>
             status after = completed
             /\ pdfFileId after = pdfFileId job
             /\ error after = error job
             /\ files (snd run) = files w
         | Throw e =>
             status after = failed
             /\ pdfFileId after = pdfFileId job
             /\ error after = Some (messageOr "Unknown error" e)
             /\ error after <> Some EmptyString
             /\ files (snd run) = files w
         end.
Proof.
  intros env t id w job Hget Hty run. unfold run.
  rewrite (convertImagesToPdf_run env t id w job Hget Hty).
  assert (Hfailed : forall e,
    exists after,
      db_get id (patched id (failedFields t e) w) = Some after
      /\ coreFieldsKept job after
      /\ docxFileId after = docxFileId job
      /\ status after = failed
      /\ pdfFileId after = pdfFileId job
      /\ error after = Some (messageOr "Unknown error" e)
      /\ error after <> Some EmptyString
      /\ files (patched id (failedFields t e) w) = files w).
  { intros e. rewrite db_get_patched, Hget. cbn [option_map].
    eexists. split; [reflexivity|].
    split; [apply coreFieldsKept_update|].
    split; [reflexivity|]. split; [reflexivity|]. split; [reflexivity|].
    assert (He : error (applyPatch (failedFields t e) job)
                 = Some (messageOr "Unknown error" e)).
    { unfold failedFields, applyPatch, updateConversionJobFields.
      cbn [error p_error].
      now rewrite truthy_messageOr. }
    split; [exact He|]. split; [|reflexivity].
    rewrite He. destruct e; discriminate. }
  destruct (sourceUrlsOf w job) as [|u us].
  { cbn [fst snd]. apply Hfailed. }
  destruct (convertImagesToPdfBuffer env (u :: us)) as [pdf|e].
  2:{ cbn [fst snd]. apply Hfailed. }
  destruct (upload env pdf) as [| |e]; cbn [fst snd].
  - rewrite db_get_patched, db_get_stored, Hget. cbn [option_map].
    eexists. split; [reflexivity|].
    split; [apply coreFieldsKept_update|].
    split; [reflexivity|]. split; [reflexivity|]. split; [reflexivity|].
    split; [reflexivity|].
    exists pdf. split; [reflexivity|].
    rewrite files_patched. apply files_stored.
  - rewrite db_get_patched, Hget. cbn [option_map].
    eexists. split; [reflexivity|].
    split; [apply coreFieldsKept_update|]. now repeat split.
  - apply Hfailed.
Qed.

Lemma convertImagesToPdf_terminal_write_witness :
  exists after,
    db_get 0%nat (snd (convertImagesToPdf (pdfkitEnv UploadStored) 3000 0%nat
                                          imagePendingWorld)) = Some after
    /\ status after = completed
    /\ pdfFileId after = Some 2%nat
    /\ files (snd (convertImagesToPdf (pdfkitEnv UploadStored) 3000 0%nat
                                      imagePendingWorld)) !! 2%nat
       = Some (PdfBytes [[DrawImage 1]; [DrawImage 2]]).
Proof.
  destruct (convertImagesToPdf_terminal_write (pdfkitEnv UploadStored) 3000
              0%nat imagePendingWorld imagePendingJob eq_refl eq_refl)
    as [after [H1 [_ [_ H2]]]].
  assert (Hrun : fst (convertImagesToPdf (pdfkitEnv UploadStored) 3000 0%nat
                                         imagePendingWorld)
                 = Ok (Some 2%nat)) by reflexivity.
  rewrite Hrun in H2. destruct H2 as [H2 [H3 _]].
  exists after. split; [exact H1|]. split; [exact H2|].
  split; [exact H3 | reflexivity].
Defined.

(** The run of the merge task on an existing job. *)
Lemma mergePdfFiles_run (env : Env) (t : Z) (id : ConversionId) (w : World)
    (job : Conversion) :
  db_get id w = Some job ->
  mergePdfFiles env t id w
  = match mergeAttempt env w job with
    | Ok merged =>
        (Ok (nextStorageId w),
         patched id (completedFields t (Some (nextStorageId w)))
                 (snd (storage_store merged w)))
    | Throw e =>
        (Throw e,
         patched id (updateConversionJobFields t None (Some failed) (Some e)) w)
    end.
Proof.
  intros Hget.
  assert (Hfail : forall e,
            (updateConversionJob (taskCtx t) id None (Some failed) (Some e) ;;
             throw (A := StorageId) e)%run w
            = (Throw e,
               patched id (updateConversionJobFields t None (Some failed)
                                                     (Some e)) w)).
  { intros e. unfold bind, throw.
    now rewrite (updateConversionJob_run (taskCtx t) w id job _ _ _ Hget). }
  unfold mergePdfFiles, mergeAttempt, try_catch.
  unfold bind at 1. unfold gets at 1. unfold getConversion at 1. rewrite Hget.
  cbn [cr_conversion].
  destruct (sourceFileIds job) as [[|f1 [|f2 more]]|]; try apply Hfail.
  unfold bind at 1.
  destruct (mapResult _ (f1 :: f2 :: more)) as [urls|e]; [|apply Hfail].
  unfold bind at 1. unfold lift at 1.
  destruct (mapResult (downloadPdf env) (indexed urls)) as [buffers|e];
    [|apply Hfail].
  unfold bind, ret, completedFields.
  change (storage_store (PdfBytes (mergeLoop [] buffers)) w)
    with (Ok (nextStorageId w),
          snd (storage_store (PdfBytes (mergeLoop [] buffers)) w)).
  cbv beta iota.
  now erewrite updateConversionJob_run by (rewrite db_get_stored; exact Hget).
Qed.

Lemma mapResult_Forall2 {A B} (f : A -> Result B) (xs : list A)
    (ys : list B) :
  mapResult f xs = Ok ys -> Forall2 (fun x y => f x = Ok y) xs ys.
Proof.
  revert ys. induction xs as [|x xs IH]; intros ys H; simpl in H.
  - injection H as <-. constructor.
  - destruct (f x) as [y|e] eqn:Hx; [|discriminate].
    destruct (mapResult f xs) as [ys'|e]; [|discriminate].
    injection H as <-. constructor; [exact Hx | now apply IH].
Qed.

Lemma resolve_urls_inv (w : World) (ids : list StorageId)
    (urls : list string) :
  mapResult (fun fileId =>
               match truthy (storage_getUrl w fileId) with
               | Some url => Ok url
               | None => Throw ("PDF file not found for ID: "
                                +:+ string_of_nat fileId)
               end) ids = Ok urls ->
  urls = map storageUrl ids
  /\ Forall (fun fileId => is_Some (files w !! fileId)) ids.
Proof.
  intros H. apply mapResult_Forall2 in H.
  induction H as [|f url ids urls Hf _ [IH1 IH2]]; [split; [reflexivity|constructor]|].
  unfold storage_getUrl in Hf.
  destruct (files w !! f) as [b|] eqn:Hb; [|discriminate].
  rewrite truthy_storageUrl in Hf. injection Hf as <-.
  split; [now rewrite IH1 | constructor; [eauto | exact IH2]].
Qed.

Lemma download_all_inv (env : Env) (w : World) (ids : list StorageId) :
  forall (k : nat) (buffers : list Bytes),
    Forall (fun fileId => is_Some (files w !! fileId)) ids ->
    mapResult (downloadPdf env)
              (combine (seq k (length ids)) (map storageUrl ids))
    = Ok buffers ->
    Forall2 (downloads env w) ids buffers.
Proof.
  induction ids as [|f ids IH]; intros k buffers Hstored H.
  - simpl in H. injection H as <-. constructor.
  - cbn [length seq map combine mapResult] in H.
    unfold downloadPdf at 1 in H. cbn [fst snd] in H.
    destruct (fetch env (storageUrl f)) as [e|[|] st body] eqn:Hf;
      try discriminate.
    destruct (mapResult (downloadPdf env) _) as [rest|e] eqn:Hrest;
      [|discriminate].
    injection H as <-. inversion Hstored as [|? ? Hs Hss]; subst.
    constructor.
    + split; [exact Hs | eauto].
    + now apply (IH (S k)).
Qed.

(** A merge attempt succeeds only when the job lists at least two sources
    that are all stored and all downloaded, and then it is the loop's result
    on the downloaded buffers. *)
Lemma mergeAttempt_ok_inv (env : Env) (w : World) (job : Conversion)
    (merged : Bytes) :
  mergeAttempt env w job = Ok merged ->
  exists ids buffers,
    sourceFileIds job = Some ids
    /\ (2 <= length ids)%nat
    /\ Forall2 (downloads env w) ids buffers
    /\ merged = PdfBytes (concat (map readablePages buffers)).
Proof.
  unfold mergeAttempt. intros H.
  destruct (sourceFileIds job) as [[|f1 [|f2 more]]|]; try discriminate.
  destruct (mapResult _ (f1 :: f2 :: more)) as [urls|e] eqn:Hurls;
    [|discriminate].
  destruct (mapResult (downloadPdf env) (indexed urls)) as [buffers|e]
    eqn:Hdl; [|discriminate].
  apply resolve_urls_inv in Hurls as [-> Hstored].
  unfold indexed in Hdl. rewrite length_map in Hdl.
  apply (download_all_inv env w _ 0 buffers Hstored) in Hdl.
  injection H as <-.
  exists (f1 :: f2 :: more), buffers.
  split; [reflexivity|]. split; [simpl; lia|]. split; [exact Hdl|].
  now rewrite mergeLoop_appends.
Qed.



(** X8: the merge task does not merge around a source it cannot fetch.
    When one listed source is not stored, or its download does not answer
    with an ok response, the task throws, the job is failed and no merged
    blob is stored, whatever the other sources are. *)
Theorem mergePdfFiles_one_unfetched_source_fails_the_job :
  forall (env : Env) (t : Z) (id : ConversionId) (w : World)
         (job : Conversion) (ids : list StorageId) (f : StorageId),
    db_get id w = Some job ->
    sourceFileIds job = Some ids ->
    In f ids ->
    (files w !! f = None
     \/ forall statusLine body,
          fetch env (storageUrl f) <> Response true statusLine body) ->
    let run := mergePdfFiles env t id w in
    exists e after,
      fst run = Throw e
      /\ db_get id (snd run) = Some after
      /\ status after = failed
      /\ files (snd run) = files w.
Proof.
  intros env t id w job ids f Hget Hsrc Hin Hbad run. unfold run.
  rewrite (mergePdfFiles_run env t id w job Hget).
  destruct (mergeAttempt env w job) as [merged|e] eqn:Hattempt.
  - exfalso.
    destruct (mergeAttempt_ok_inv env w job merged Hattempt)
      as [ids' [buffers [H1 [_ [H3 _]]]]].
    assert (ids' = ids) as -> by congruence.
    assert (Hf : exists b, downloads env w f b).
    { clear -H3 Hin. induction H3 as [|x b xs bs Hx _ IH]; [destruct Hin|].
      destruct Hin as [->|Hin]; [eauto | now apply IH]. }
    destruct Hf as [b [[x Hx] [st Hst]]].
    destruct Hbad as [Hnone|Hnot]; [congruence | exact (Hnot st b Hst)].
  - cbn [fst snd]. rewrite db_get_patched, Hget. cbn [option_map].
    exists e. eexists. split; [reflexivity|]. split; [reflexivity|].
    split; reflexivity.
Qed.

Lemma mergePdfFiles_one_unfetched_source_fails_the_job_witness :
  exists e after,
    fst (mergePdfFiles offlineEnv 3000 0%nat mergeWorld) = Throw e
    /\ db_get 0%nat (snd (mergePdfFiles offlineEnv 3000 0%nat mergeWorld))
       = Some after
    /\ status after = failed
    /\ files (snd (mergePdfFiles offlineEnv 3000 0%nat mergeWorld))
       = files mergeWorld.
Proof.
  apply (mergePdfFiles_one_unfetched_source_fails_the_job
           offlineEnv 3000 0%nat mergeWorld
           (newConversion "alice" pdf_merger None (Some [0%nat; 1%nat])
                          "merged.pdf" 1000 0%nat)
           [0%nat; 1%nat] 1%nat).
  - reflexivity.
  - reflexivity.
  - simpl. tauto.
  - right. intros statusLine body. discriminate.
Defined.

(** ** The tiers of the image chain *)

Lemma mapResult_length {A B} (f : A -> Result B) (xs : list A) (ys : list B) :
  mapResult f xs = Ok ys -> length ys = length xs.
Proof.
  intros H. apply mapResult_Forall2 in H.
  induction H; simpl; congruence.
Qed.

Lemma Forall2_mapResult {A B} (f : A -> Result B) (xs : list A)
    (ys : list B) :
  Forall2 (fun x y => f x = Ok y) xs ys -> mapResult f xs = Ok ys.
Proof.
  induction 1 as [|x y xs ys Hx _ IH]; simpl; [reflexivity|].
  now rewrite Hx, IH.
Qed.

Lemma convertWithCloudmersive_many (env : Env) (urls : list string)
    (apiKey : string) :
  length urls <> 1%nat ->
  isOk (convertWithCloudmersive env urls apiKey) = false.
Proof.
  intros Hlen. unfold convertWithCloudmersive.
  destruct (mapResult (download env) urls) as [buffers|e] eqn:Hdl;
    [|reflexivity].
  apply mapResult_length in Hdl.
  destruct buffers as [|b [|b' more]]; try reflexivity.
  simpl in Hdl. congruence.
Qed.

(** X9: the remote-API tier can succeed for exactly one image only.  With
    two or more valid URLs it always throws, so the result of the chain is
    that of PDFKit, or else of the minimal fallback, whether or not an API
    key is configured. *)
Theorem remote_tier_is_skipped_for_several_images :
  forall (env : Env) (urls : list (option string)),
    (2 <= length (validUrlsOf urls))%nat ->
    (forall apiKey,
       isOk (convertWithCloudmersive env (validUrlsOf urls) apiKey) = false)
    /\ convertImagesToPdfBuffer env urls
       = match convertWithPdfKit env (validUrlsOf urls) with
         | Ok pdf => Ok pdf
         | Throw _ => createSimplePdfFromUrls env (validUrlsOf urls)
         end.
Proof.
  intros env urls Hlen.
  assert (Hmany : forall apiKey,
            isOk (convertWithCloudmersive env (validUrlsOf urls) apiKey) = false)
    by (intros apiKey; apply convertWithCloudmersive_many; lia).
  split; [exact Hmany|].
  unfold convertImagesToPdfBuffer.
  destruct (validUrlsOf urls) as [|u us] eqn:Hv; [simpl in Hlen; lia|].
  destruct (truthy (CLOUDMERSIVE_API_KEY env)) as [k|]; [|reflexivity].
  specialize (Hmany k).
  destruct (convertWithCloudmersive env (u :: us) k); [discriminate|reflexivity].
Qed.

Lemma remote_tier_is_skipped_for_several_images_witness :
  convertImagesToPdfBuffer wordEnv
    [Some (storageUrl 0%nat); None; Some (storageUrl 1%nat)]
  = match convertWithPdfKit wordEnv [storageUrl 0%nat; storageUrl 1%nat] with
    | Ok pdf => Ok pdf
    | Throw _ =>
        createSimplePdfFromUrls wordEnv [storageUrl 0%nat; storageUrl 1%nat]
    end.
Proof.
  apply (remote_tier_is_skipped_for_several_images wordEnv
           [Some (storageUrl 0%nat); None; Some (storageUrl 1%nat)]).
  simpl. lia.
Defined.

(** X10: the PDFKit tier is all or nothing.  It returns a document exactly
    when every URL downloads and PDFKit accepts every image, and then the
    document has one page per URL, in order, each holding that URL's
    image. *)
Theorem convertWithPdfKit_one_page_per_image :
  forall (env : Env) (urls : list string) (b : Bytes),
    convertWithPdfKit env urls = Ok b
    <-> exists pages,
          b = PdfBytes pages
          /\ length pages = length urls
          /\ Forall2 (pdfkitPageOf env) urls pages.
Proof.
  intros env urls b. unfold convertWithPdfKit. split.
  - destruct (mapResult (download env) urls) as [images|e] eqn:Hdl;
      [|discriminate].
    destruct (mapResult _ images) as [pages|e] eqn:Hpages; [|discriminate].
    intros H. injection H as <-. exists pages. split; [reflexivity|].
    pose proof (mapResult_length _ _ _ Hdl) as L1.
    pose proof (mapResult_length _ _ _ Hpages) as L2.
    split; [transitivity (length images); [exact L2 | exact L1]|].
    apply mapResult_Forall2 in Hdl. apply mapResult_Forall2 in Hpages.
    clear L1 L2. revert pages Hpages.
    induction Hdl as [|u image urls images Hu _ IH]; intros pages Hpages.
    + inversion Hpages. constructor.
    + inversion Hpages as [|? page ? pages' Hp Hrest]; subst.
      constructor; [|now apply IH].
      destruct (pdfkit_image env image) as [op|e] eqn:Hop; [|discriminate].
      injection Hp as <-. exists image, op. auto.
  - intros [pages [-> [_ H]]].
    assert (Himages : exists images,
              Forall2 (fun u i => download env u = Ok i) urls images
              /\ Forall2 (fun i p => match pdfkit_image env i with
                                     | Ok op => Ok [op]
                                     | Throw e => Throw e
                                     end = Ok p) images pages).
    { induction H as [|u page urls pages [image [op [H1 [H2 ->]]]] _ IH].
      - exists []. split; constructor.
      - destruct IH as [images [IH1 IH2]]. exists (image :: images).
        split; constructor; auto. now rewrite H2. }
    destruct Himages as [images [H1 H2]].
    rewrite (Forall2_mapResult _ _ _ H1).
    now rewrite (Forall2_mapResult _ _ _ H2).
Qed.

Lemma convertWithPdfKit_one_page_per_image_witness :
  exists pages,
    PdfBytes [[DrawImage 1]; [DrawImage 2]] = PdfBytes pages
    /\ length pages = 2%nat.
Proof.
  destruct (proj1 (convertWithPdfKit_one_page_per_image
                     (pdfkitEnv UploadStored)
                     [storageUrl 0%nat; storageUrl 1%nat]
                     (PdfBytes [[DrawImage 1]; [DrawImage 2]])) eq_refl)
    as [pages [H1 [H2 _]]].
  exists pages. split; [exact H1 | exact H2].
Defined.

Lemma convertImagesToPdfBuffer_never_throws (env : Env)
    (urls : list (option string)) :
  pdflib_error env = None ->
  validUrlsOf urls <> [] ->
  exists pdf, convertImagesToPdfBuffer env urls = Ok pdf.
Proof.
  intros Hlib Hne. unfold convertImagesToPdfBuffer.
  destruct (validUrlsOf urls) as [|u us]; [congruence|].
  assert (Hlast : exists pdf,
            match convertWithPdfKit env (u :: us) with
            | Ok pdf => Ok pdf
            | Throw _ => createSimplePdfFromUrls env (u :: us)
            end = Ok pdf).
  { destruct (convertWithPdfKit env (u :: us)); [eauto|].
    unfold createSimplePdfFromUrls. rewrite Hlib. eauto. }
  destruct (truthy (CLOUDMERSIVE_API_KEY env)) as [k|]; [|exact Hlast].
  destruct (convertWithCloudmersive env (u :: us) k); [eauto | exact Hlast].
Qed.

(** X11: an image job with at least one stored source cannot fail as long
    as pdf-lib works and the upload stores the document: whatever the
    network, the remote API and PDFKit do, the task returns the new blob's
    id and the job is completed with that id as [pdfFileId]. *)
Theorem image_job_completes_when_fallback_and_upload_work :
  forall (env : Env) (t : Z) (id : ConversionId) (w : World)
         (job : Conversion),
    db_get id w = Some job ->
    type job = image_to_pdf ->
    validUrlsOf (sourceUrlsOf w job) <> [] ->
    pdflib_error env = None ->
    (forall pdf, upload env pdf = UploadStored) ->
    let run := convertImagesToPdf env t id w in
    fst run = Ok (Some (nextStorageId w))
    /\ is_Some (files (snd run) !! nextStorageId w)
    /\ exists after,
         db_get id (snd run) = Some after
         /\ status after = completed
         /\ pdfFileId after = Some (nextStorageId w).
Proof.
  intros env t id w job Hget Hty Hvalid Hlib Hup run. unfold run.
  rewrite (convertImagesToPdf_run env t id w job Hget Hty).
  destruct (convertImagesToPdfBuffer_never_throws env _ Hlib Hvalid)
    as [pdf Hpdf].
  destruct (sourceUrlsOf w job) as [|u us]; [now elim Hvalid|].
  rewrite Hpdf, Hup. cbn [fst snd].
  split; [reflexivity|].
  split; [rewrite files_patched, files_stored; eauto|].
  rewrite db_get_patched, db_get_stored, Hget. cbn [option_map].
  eexists. split; [reflexivity|]. split; reflexivity.
Qed.

Lemma image_job_completes_when_fallback_and_upload_work_witness :
  fst (convertImagesToPdf
         {| CLOUDMERSIVE_API_KEY := None;
            fetch := fun _ => FetchFailed "offline";
            convertDocumentPdfToDocx := fun _ => Throw "offline";
            convertImageImageToPdf := fun _ => Throw "offline";
            pdfkit_image := fun _ => Throw "Unknown image format.";
            pdflib_error := None;
            upload := fun _ => UploadStored;
            toLocaleDateString := "1/1/2025" |} 3000 0%nat imagePendingWorld)
  = Ok (Some 2%nat).
Proof.
  apply (image_job_completes_when_fallback_and_upload_work
           {| CLOUDMERSIVE_API_KEY := None;
              fetch := fun _ => FetchFailed "offline";
              convertDocumentPdfToDocx := fun _ => Throw "offline";
              convertImageImageToPdf := fun _ => Throw "offline";
              pdfkit_image := fun _ => Throw "Unknown image format.";
              pdflib_error := None;
              upload := fun _ => UploadStored;
              toLocaleDateString := "1/1/2025" |} 3000 0%nat
           imagePendingWorld imagePendingJob).
  - reflexivity.
  - reflexivity.
  - discriminate.
  - reflexivity.
  - reflexivity.
Defined.

(** ** Two writers on one job *)

(** X12: [updateConversionJob] never clears a field.  When the image
    task's failure write and the browser fallback's completion write both
    reach the same job, the job ends with the fallback's blob in
    [pdfFileId] and the task's message in [error], in either order; its
    status is that of the later write.  As the blob is stored, the history
    item shows the job as completed with a downloadable result in both
    orders, also when the stored status is failed. *)
Theorem racing_writes_keep_both_blob_and_error :
  forall (ctx1 ctx2 : Ctx) (id : ConversionId) (w : World) (job : Conversion)
         (e : string) (sid : StorageId),
    db_get id w = Some job ->
    type job = image_to_pdf ->
    e <> EmptyString ->
    is_Some (files w !! sid) ->
    let serverFails := updateConversionJob ctx1 id None (Some failed) (Some e) in
    let clientCompletes :=
      updateConversionJob ctx2 id (Some sid) (Some completed) None in
    (exists after,
       db_get id (snd (clientCompletes (snd (serverFails w)))) = Some after
       /\ status after = completed
       /\ pdfFileId after = Some sid
       /\ error after = Some e
       /\ displayStatus
            (listItem (snd (clientCompletes (snd (serverFails w)))) after)
          = completed)
    /\ (exists after,
          db_get id (snd (serverFails (snd (clientCompletes w)))) = Some after
          /\ status after = failed
          /\ pdfFileId after = Some sid
          /\ error after = Some e
          /\ hasDownloadableResult
               (listItem (snd (serverFails (snd (clientCompletes w)))) after)
             = true
          /\ displayStatus
               (listItem (snd (serverFails (snd (clientCompletes w)))) after)
             = completed).
Proof.
  intros ctx1 ctx2 id w job e sid Hget Hty He [b Hb] serverFails clientCompletes.
  assert (Hshown : forall w' after,
            files w' = files w ->
            type after = image_to_pdf ->
            pdfFileId after = Some sid ->
            hasDownloadableResult (listItem w' after) = true).
  { intros w' after Hfiles Hta Hpdf.
    unfold hasDownloadableResult, listItem. cbn [li_conversion li_pdfUrl].
    rewrite Hta, Hpdf. unfold storage_getUrl. rewrite Hfiles, Hb.
    reflexivity. }
  split.
  - unfold serverFails, clientCompletes.
    rewrite (updateConversionJob_run ctx1 w id job _ _ _ Hget). cbn [snd].
    erewrite updateConversionJob_run
      by (rewrite db_get_patched, Hget; reflexivity).
    cbn [snd]. rewrite !db_get_patched, Hget. cbn [option_map].
    eexists. split; [reflexivity|]. split; [reflexivity|].
    split; [reflexivity|].
    split; [destruct e; [now elim He | reflexivity]|].
    unfold displayStatus. rewrite Hshown; [reflexivity|reflexivity| |reflexivity].
    cbn. exact Hty.
  - unfold serverFails, clientCompletes.
    rewrite (updateConversionJob_run ctx2 w id job _ _ _ Hget). cbn [snd].
    erewrite updateConversionJob_run
      by (rewrite db_get_patched, Hget; reflexivity).
    cbn [snd]. rewrite !db_get_patched, Hget. cbn [option_map].
    eexists. split; [reflexivity|]. split; [reflexivity|].
    split; [reflexivity|].
    split; [destruct e; [now elim He | reflexivity]|].
    assert (Hs : forall w' after,
              files w' = files w -> type after = image_to_pdf ->
              pdfFileId after = Some sid ->
              hasDownloadableResult (listItem w' after) = true) by exact Hshown.
    split.
    + apply Hs; [reflexivity | cbn; exact Hty | reflexivity].
    + unfold displayStatus.
      rewrite Hs; [reflexivity | reflexivity | cbn; exact Hty | reflexivity].
Qed.

Lemma racing_writes_keep_both_blob_and_error_witness :
  exists after,
    db_get 0%nat
      (snd (updateConversionJob (taskCtx 3000) 0%nat None (Some failed)
              (Some "Failed to generate PDF")
              (snd (updateConversionJob bob 0%nat (Some 1%nat) (Some completed)
                      None imagePendingWorld)))) = Some after
    /\ status after = failed
    /\ pdfFileId after = Some 1%nat
    /\ error after = Some "Failed to generate PDF".
Proof.
  destruct (racing_writes_keep_both_blob_and_error (taskCtx 3000) bob 0%nat
              imagePendingWorld imagePendingJob "Failed to generate PDF" 1%nat
              eq_refl eq_refl)
    as [_ [after [H1 [H2 [H3 [H4 _]]]]]].
  - discriminate.
  - eexists. reflexivity.
  - exists after. split; [exact H1|]. split; [exact H2|].
    split; [exact H3 | exact H4].
Defined.

(** ** What the expiry sweep removes, and what it returns *)

Lemma filter_absent_id (id : ConversionId) (cs : list Conversion) :
  ~ In id (map _id cs) -> List.filter (keepsOthers id) cs = cs.
Proof.
  induction cs as [|c cs IH]; intros H; simpl; [reflexivity|].
  unfold keepsOthers at 1.
  assert (Nat.eqb (_id c) id = false) as ->
    by (apply Nat.eqb_neq; intros E; apply H; left; exact E).
  simpl. f_equal. apply IH. intros Hin. apply H. now right.
Qed.

Lemma filter_present_id (id : ConversionId) (c0 : Conversion)
    (cs : list Conversion) :
  List.NoDup (map _id cs) ->
  List.find (fun c => Nat.eqb (_id c) id) cs = Some c0 ->
  S (length (List.filter (keepsOthers id) cs)) = length cs.
Proof.
  induction cs as [|c cs IH]; intros Hnd Hfind; simpl in *; [discriminate|].
  inversion Hnd as [|? ? Hnotin Hnd']; subst.
  unfold keepsOthers at 1.
  destruct (Nat.eqb (_id c) id) eqn:E; simpl.
  - apply Nat.eqb_eq in E. rewrite filter_absent_id; [reflexivity|].
    now rewrite <- E.
  - f_equal. now apply IH.
Qed.

Lemma NoDup_ids_filter (p : Conversion -> bool) (cs : list Conversion) :
  List.NoDup (map _id cs) -> List.NoDup (map _id (List.filter p cs)).
Proof.
  induction cs as [|c cs IH]; intros H; simpl; [constructor|].
  inversion H as [|? ? Hnotin Hnd]; subst.
  destruct (p c); simpl; [|now apply IH].
  constructor; [|now apply IH].
  intros Hin. apply Hnotin. apply in_map_iff in Hin as [x [Hx Hin]].
  apply filter_In in Hin as [Hin _]. apply in_map_iff. eauto.
Qed.

Lemma same_id_same_job (cs : list Conversion) (a b : Conversion) :
  List.NoDup (map _id cs) -> In a cs -> In b cs -> _id a = _id b -> a = b.
Proof.
  induction cs as [|c cs IH]; intros Hnd Ha Hb Hid; [destruct Ha|].
  inversion Hnd as [|? ? Hnotin Hnd']; subst.
  destruct Ha as [->|Ha], Hb as [->|Hb]; try reflexivity.
  - exfalso. apply Hnotin. rewrite Hid. now apply in_map.
  - exfalso. apply Hnotin. rewrite <- Hid. now apply in_map.
  - now apply IH.
Qed.

(** One round of the sweep either leaves the table alone or removes the
    documents of the job's id, of which there is one. *)
Lemma cleanupOne_table (c : Conversion) (w : World) :
  exists deleted w',
    cleanupOne c w = (Ok deleted, w')
    /\ (if deleted
        then (exists c0, db_get (_id c) w = Some c0)
             /\ conversions w'
                = List.filter (keepsOthers (_id c)) (conversions w)
        else conversions w' = conversions w).
Proof.
  unfold cleanupOne, try_catch, bind, ret.
  assert (Hstep : forall (o : option StorageId) (v : World),
            conversions (snd (match o with
                              | Some f => storage_delete f
                              | None => fun s => (Ok tt, s)
                              end v)) = conversions v).
  { intros [f|] v; [|reflexivity]. unfold storage_delete.
    now destruct (files v !! f). }
  pose proof (Hstep (pdfFileId c) w) as H1.
  destruct (match pdfFileId c with
            | Some f => storage_delete f
            | None => fun s => (Ok tt, s)
            end w) as [[[]|e] w1]; simpl in H1; [|exists false; eauto].
  pose proof (Hstep (docxFileId c) w1) as H2.
  destruct (match docxFileId c with
            | Some f => storage_delete f
            | None => fun s => (Ok tt, s)
            end w1) as [[[]|e] w2]; simpl in H2;
    [|exists false; eexists; split; [reflexivity | congruence]].
  unfold db_delete.
  assert (Hget : db_get (_id c) w2 = db_get (_id c) w)
    by (unfold db_get; congruence).
  destruct (db_get (_id c) w2) as [c0|] eqn:Hc0.
  - exists true. eexists. split; [reflexivity|]. split; [eauto|].
    simpl. unfold keepsOthers. congruence.
  - exists false. eexists. split; [reflexivity | congruence].
Qed.

Lemma cleanupLoop_accounts (expired : list Conversion) :
  forall (n : nat) (w : World),
    uniqueIds w ->
    exists m w',
      cleanupLoop expired n w = (Ok m, w')
      /\ (m + length (conversions w') = n + length (conversions w))%nat
      /\ (m <= n + length expired)%nat
      /\ (forall c, In c (conversions w') -> In c (conversions w))
      /\ (forall c, In c (conversions w) ->
                    ~ In (_id c) (map _id expired) ->
                    In c (conversions w')).
Proof.
  induction expired as [|c rest IH]; intros n w Hnd.
  - exists n, w. simpl. repeat split; auto. lia.
  - cbn [cleanupLoop]. unfold bind.
    destruct (cleanupOne_table c w) as [deleted [w1 [Hone Htable]]].
    rewrite Hone.
    destruct deleted.
    + destruct Htable as [[c0 Hc0] Hcs].
      assert (Hnd1 : uniqueIds w1)
        by (unfold uniqueIds; rewrite Hcs; now apply NoDup_ids_filter).
      destruct (IH (S n) w1 Hnd1) as [m [w' [Hrun [Hlen [Hle [Hsub Hkeep]]]]]].
      exists m, w'. split; [exact Hrun|].
      pose proof (filter_present_id (_id c) c0 (conversions w) Hnd Hc0) as Hone'.
      rewrite <- Hcs in Hone'.
      split; [lia|]. split; [simpl; lia|]. split.
      * intros x Hx. apply Hsub in Hx. rewrite Hcs in Hx.
        now apply filter_In in Hx as [Hx _].
      * intros x Hx Hnot. apply Hkeep.
        -- rewrite Hcs. apply filter_In. split; [exact Hx|].
           unfold keepsOthers. apply negb_true_iff, Nat.eqb_neq.
           intros E. apply Hnot. left. now symmetry.
        -- intros Hin. apply Hnot. now right.
    + assert (Hnd1 : uniqueIds w1) by (unfold uniqueIds; now rewrite Htable).
      destruct (IH n w1 Hnd1) as [m [w' [Hrun [Hlen [Hle [Hsub Hkeep]]]]]].
      exists m, w'. split; [exact Hrun|]. rewrite Htable in *.
      split; [lia|]. split; [simpl; lia|]. split; [exact Hsub|].
      intros x Hx Hnot. apply Hkeep; [exact Hx|].
      intros Hin. apply Hnot. now right.
Qed.

(** X13: the sweep only removes, and it counts what it removes.  On a
    table with distinct ids it returns the number of job records it
    deleted, which is at most the number of expired jobs; every record
    left was there before; and a job whose [expiresAt] is not strictly
    before the sweep's clock is still there afterwards. *)
Theorem cleanup_counts_and_keeps_unexpired :
  forall (ctx : Ctx) (w : World),
    uniqueIds w ->
    let run := cleanupExpiredConversions ctx w in
    exists deletedCount,
      fst run = Ok deletedCount
      /\ (deletedCount + length (conversions (snd run))
          = length (conversions w))%nat
      /\ (deletedCount
          <= length (List.filter (isExpired (now ctx)) (conversions w)))%nat
      /\ (forall c, In c (conversions (snd run)) -> In c (conversions w))
      /\ (forall c, In c (conversions w) -> now ctx <= expiresAt c ->
                    In c (conversions (snd run))).
Proof.
  intros ctx w Hnd run. unfold run.
  unfold cleanupExpiredConversions, transaction, bind, gets.
  destruct (cleanupLoop_accounts
              (List.filter (isExpired (now ctx)) (conversions w)) 0 w Hnd)
    as [m [w' [Hrun [Hlen [Hle [Hsub Hkeep]]]]]].
  rewrite Hrun. cbn [fst snd]. exists m.
  split; [reflexivity|]. split; [lia|]. split; [lia|]. split; [exact Hsub|].
  intros c Hin Hlive. apply Hkeep; [exact Hin|].
  intros Hid. apply in_map_iff in Hid as [x [Hx Hxin]].
  apply filter_In in Hxin as [Hxin Hexp].
  assert (x = c) by (apply (same_id_same_job (conversions w)); auto).
  subst x. unfold isExpired in Hexp. apply Z.ltb_lt in Hexp. lia.
Qed.

Lemma cleanup_counts_and_keeps_unexpired_witness :
  fst (cleanupExpiredConversions {| auth := None; now := 3601001 |}
                                 aliceAndBobWorld) = Ok 1%nat
  /\ map _id (conversions
               (snd (cleanupExpiredConversions {| auth := None; now := 3601001 |}
                                               aliceAndBobWorld))) = [1%nat]
  /\ exists deletedCount,
       fst (cleanupExpiredConversions {| auth := None; now := 3601001 |}
                                      aliceAndBobWorld) = Ok deletedCount
       /\ (deletedCount
           + length (conversions
                       (snd (cleanupExpiredConversions
                               {| auth := None; now := 3601001 |}
                               aliceAndBobWorld)))
           = length (conversions aliceAndBobWorld))%nat.
Proof.
  split; [reflexivity|]. split; [reflexivity|].
  destruct (cleanup_counts_and_keeps_unexpired
              {| auth := None; now := 3601001 |} aliceAndBobWorld)
    as [n [H1 [H2 _]]].
  - repeat constructor; simpl; intros H; repeat destruct H as [H|H];
      try discriminate; auto.
  - exists n. split; [exact H1 | exact H2].
Defined.

(** ** The cost and the failures of the remote-API strategy *)

Lemma rounds_up_by_nine (d : nat) :
  (1 <= d)%nat -> ((d + 8) / 9 = 1 + (d - 9 + 8) / 9)%nat.
Proof.
  intros Hd. destruct (Nat.le_gt_cases d 9) as [Hle|Hgt].
  - replace (d - 9)%nat with 0%nat by lia.
    change ((0 + 8) / 9)%nat with 0%nat.
    symmetry. apply (Nat.div_unique (d + 8) 9 1 (d - 1)); lia.
  - replace (d + 8)%nat with ((d - 9 + 8) + 1 * 9)%nat by lia.
    rewrite Nat.div_add by lia. lia.
Qed.

Lemma mergeBatches_count (api : Cloudmersive) (pdfPages : list Bytes) :
  MergesFaithfully api ->
  forall (fuel i : nat) (currentPdf : Bytes) (log : list MergeCall),
    (length pdfPages - i <= fuel)%nat ->
    length (snd (mergeBatches fuel api pdfPages i currentPdf log))
    = (length log + (length pdfPages - i + 8) / 9)%nat.
Proof.
  intros [Hmulti _]. induction fuel as [|fuel IH]; intros i cur log Hfuel.
  - cbn [mergeBatches ret snd].
    replace (length pdfPages - i)%nat with 0%nat by lia.
    change ((0 + 8) / 9)%nat with 0%nat. lia.
  - cbn [mergeBatches]. destruct (i <? length pdfPages)%nat eqn:Hi.
    + apply Nat.ltb_lt in Hi. unfold bind, callMulti. rewrite Hmulti.
      rewrite IH by lia. rewrite length_app. cbn [length].
      rewrite (rounds_up_by_nine (length pdfPages - i)) by lia.
      replace (length pdfPages - (i + 9))%nat
        with (length pdfPages - i - 9)%nat by lia.
      lia.
    + apply Nat.ltb_ge in Hi. cbn [ret snd].
      replace (length pdfPages - i)%nat with 0%nat by lia.
      change ((0 + 8) / 9)%nat with 0%nat. lia.
Qed.

(** X14: with a merge service that answers every call, the strategy makes
    no merge call for a single document, one call for two to ten
    documents, and for K > 10 documents one call plus one more for every
    started group of nine beyond the tenth, that is 1 + ceil((K - 10) / 9)
    calls. *)
Theorem convertImagesWithApi_merge_call_count :
  forall (api : Cloudmersive) (apiKey : string) (imageBuffers : list Bytes)
         (pdfPages : list Bytes) (log : list MergeCall),
    createPdfPages api imageBuffers = Ok pdfPages ->
    MergesFaithfully api ->
    length (snd (convertImagesWithApi api apiKey imageBuffers log))
    = (length log + mergeCallCount (length pdfPages))%nat.
Proof.
  intros api apiKey imageBuffers pdfPages log Hpages Hfaithful.
  unfold convertImagesWithApi, bind, lift. rewrite Hpages.
  destruct pdfPages as [|p0 [|p1 [|p2 rest]]].
  - cbn. lia.
  - cbn. lia.
  - cbn [mergePdfPages callPair snd]. rewrite length_app. reflexivity.
  - set (pdfPages := p0 :: p1 :: p2 :: rest).
    set (request := [ Some p0; Some p1; slot pdfPages 2; slot pdfPages 3;
                      slot pdfPages 4; slot pdfPages 5; slot pdfPages 6;
                      slot pdfPages 7; slot pdfPages 8; slot pdfPages 9 ]).
    assert (Hrun : mergePdfPages api pdfPages log
                   = (let* mergedPdf := callMulti api request in
                      if (10 <? length pdfPages)%nat
                      then mergeBatches (length pdfPages) api pdfPages 10 mergedPdf
                      else ret mergedPdf)%run log) by reflexivity.
    rewrite Hrun. clear Hrun. unfold bind, callMulti.
    destruct Hfaithful as [Hmulti Hpair]. rewrite Hmulti.
    unfold mergeCallCount.
    assert (Nat.leb (length pdfPages) 1 = false) as ->
      by (apply Nat.leb_gt; simpl; lia).
    destruct (10 <? length pdfPages)%nat eqn:Hbig.
    + apply Nat.ltb_lt in Hbig.
      assert (Nat.leb (length pdfPages) 10 = false) as ->
        by (apply Nat.leb_gt; lia).
      rewrite (mergeBatches_count api pdfPages (conj Hmulti Hpair)) by lia.
      rewrite length_app. cbn [length]. lia.
    + apply Nat.ltb_ge in Hbig.
      assert (Nat.leb (length pdfPages) 10 = true) as ->
        by (apply Nat.leb_le; lia).
      cbn [ret snd]. rewrite length_app. reflexivity.
Qed.

Lemma convertImagesWithApi_merge_call_count_witness :
  length (snd (convertImagesWithApi faithfulApi "key"
                 (map (fun i => ImageBytes i) (seq 1 29)) []))
  = 4%nat.
Proof.
  rewrite (convertImagesWithApi_merge_call_count faithfulApi "key"
             (map (fun i => ImageBytes i) (seq 1 29))
             (map (fun i => PdfBytes [[DrawImage i]]) (seq 1 29)) []).
  - reflexivity.
  - reflexivity.
  - split; intros; reflexivity.
Defined.

Lemma mapResult_first_throw {A B} (f : A -> Result B) (pre post : list A)
    (bad : A) (e : string) :
  Forall (fun x => isOk (f x) = true) pre ->
  f bad = Throw e ->
  mapResult f (pre ++ bad :: post) = Throw e.
Proof.
  intros Hpre Hbad. induction Hpre as [|x pre Hx _ IH]; simpl.
  - now rewrite Hbad.
  - destruct (f x); [|discriminate]. now rewrite IH.
Qed.

(** X15: the strategy converts the images one after the other and gives up
    at the first one whose conversion is rejected: it throws that
    rejection and has made no merge call, however many images were
    converted before it or come after it.  In particular an SDK object
    without an image method makes it throw at the first image. *)
Theorem convertImagesWithApi_stops_at_first_failed_image :
  forall (api : Cloudmersive) (apiKey : string) (pre post : list Bytes)
         (bad : Bytes) (e : string) (log : list MergeCall),
    Forall (fun image => isOk (convertOneImage api image) = true) pre ->
    convertOneImage api bad = Throw e ->
    convertImagesWithApi api apiKey (pre ++ bad :: post) log = (Throw e, log).
Proof.
  intros api apiKey pre post bad e log Hpre Hbad.
  unfold convertImagesWithApi, bind, lift.
  change (createPdfPages api (pre ++ bad :: post))
    with (mapResult (convertOneImage api) (pre ++ bad :: post)).
  now rewrite (mapResult_first_throw _ pre post bad e Hpre Hbad).
Qed.

Lemma convertImagesWithApi_stops_at_first_failed_image_witness :
  convertImagesWithApi faithfulApi "key"
    ([ImageBytes 1; ImageBytes 2] ++ Corrupt 0 :: [ImageBytes 3]) []
  = (Throw "Input is not an image", []).
Proof.
  apply (convertImagesWithApi_stops_at_first_failed_image faithfulApi "key"
           [ImageBytes 1; ImageBytes 2] [ImageBytes 3] (Corrupt 0)).
  - repeat constructor.
  - reflexivity.
Defined.

(** ** The hand-written PDF: offsets and references *)
















(** ** The merge component: selection limits and the two-source guard *)

Lemma filter_nil_Forall {A} (p : A -> bool) (xs : list A) :
  List.filter p xs = [] -> Forall (fun x => p x = false) xs.
Proof.
  induction xs as [|x xs IH]; intros H; [constructor|].
  simpl in H. destruct (p x) eqn:Hp; [discriminate|].
  constructor; [exact Hp | now apply IH].
Qed.

Lemma handleRemoveFile_sublist (index : nat) (files : list PdfMerger.File) :
  (length (PdfMerger.handleRemoveFile index files) <= length files)%nat
  /\ forall file, In file (PdfMerger.handleRemoveFile index files) ->
                  In file files.
Proof.
  unfold PdfMerger.handleRemoveFile, indexed. split.
  - rewrite length_map.
    etransitivity; [apply List.filter_length_le|].
    rewrite length_combine, length_seq. lia.
  - intros file Hin. apply in_map_iff in Hin as [[k f] [<- Hin]].
    apply filter_In in Hin as [Hin _]. now apply in_combine_r in Hin.
Qed.

(** X18: the selection of the merge component stays within its limits.
    Starting from a selection of at most 20 files, all PDFs of at most
    50 MB, [handleFilesUpload] either reports an error and leaves the
    selection as it was, or appends files after the ones already
    selected; the files it appends are PDFs of the offered list that match
    no selected file in both name and size; and the selection afterwards,
    as after [handleRemoveFile], is again within the limits. *)
Theorem PdfMerger_selection_stays_within_limits :
  forall (selectedFiles : list PdfMerger.File)
         (files : option (list PdfMerger.File)) (index : nat),
    PdfMerger.validSelection selectedFiles ->
    let result := PdfMerger.handleFilesUpload selectedFiles files in
    PdfMerger.validSelection (snd result)
    /\ (fst result <> None -> snd result = selectedFiles)
    /\ (exists newFiles,
          snd result = selectedFiles ++ newFiles
          /\ Forall (fun newFile =>
                       (exists offered,
                          files = Some offered /\ In newFile offered)
                       /\ Forall (fun existingFile =>
                                    PdfMerger.sameNameAndSize existingFile
                                                              newFile = false)
                                 selectedFiles) newFiles)
    /\ PdfMerger.validSelection (PdfMerger.handleRemoveFile index selectedFiles).
Proof.
  intros selectedFiles files index [Hlen Hall] result.
  assert (Hsame : PdfMerger.validSelection selectedFiles /\
                  (exists newFiles : list PdfMerger.File,
                     selectedFiles = selectedFiles ++ newFiles
                     /\ Forall (fun newFile =>
                          (exists offered,
                             files = Some offered /\ In newFile offered)
                          /\ Forall (fun existingFile =>
                               PdfMerger.sameNameAndSize existingFile newFile
                               = false) selectedFiles) newFiles)).
  { split; [split; assumption|]. exists []. split; [now rewrite app_nil_r|].
    constructor. }
  assert (Hremove : PdfMerger.validSelection
                      (PdfMerger.handleRemoveFile index selectedFiles)).
  { destruct (handleRemoveFile_sublist index selectedFiles) as [H1 H2].
    split; [lia|]. apply List.Forall_forall. intros file Hin.
    apply H2 in Hin. revert file Hin. now apply List.Forall_forall. }
  unfold result, PdfMerger.handleFilesUpload.
  destruct files as [[|f fs]|]; cbn [fst snd];
    try (split; [apply Hsame|]; split; [reflexivity|];
         split; [apply Hsame | exact Hremove]).
  set (offered := f :: fs).
  destruct (List.filter PdfMerger.isPdf offered) as [|p ps] eqn:Hpdf;
    cbn [fst snd];
    [split; [apply Hsame|]; split; [reflexivity|];
     split; [apply Hsame | exact Hremove]|].
  destruct (PdfMerger.MAX_FILES <? length selectedFiles + length (p :: ps))%nat
    eqn:Hmax; cbn [fst snd];
    [split; [apply Hsame|]; split; [reflexivity|];
     split; [apply Hsame | exact Hremove]|].
  destruct (List.filter PdfMerger.isOversized (p :: ps)) as [|o os] eqn:Hover;
    cbn [fst snd];
    [|split; [apply Hsame|]; split; [reflexivity|];
      split; [apply Hsame | exact Hremove]].
  apply Nat.ltb_ge in Hmax. apply filter_nil_Forall in Hover.
  set (newFiles := List.filter _ (p :: ps)).
  assert (Hnew : forall file, In file newFiles ->
            In file offered
            /\ PdfMerger.isPdf file = true
            /\ PdfMerger.isOversized file = false
            /\ existsb (fun existingFile =>
                          PdfMerger.sameNameAndSize existingFile file)
                       selectedFiles = false).
  { intros file Hin. apply filter_In in Hin as [Hin Hfresh].
    apply negb_true_iff in Hfresh.
    assert (Hp : In file (List.filter PdfMerger.isPdf offered))
      by (rewrite Hpdf; exact Hin).
    apply filter_In in Hp as [Hoff Hp].
    split; [exact Hoff|]. split; [exact Hp|]. split; [|exact Hfresh].
    exact (proj1 (List.Forall_forall _ _) Hover file Hin). }
  split; [|split; [intros H; now elim H|split; [|exact Hremove]]].
  - split.
    + rewrite length_app.
      assert (length newFiles <= length (p :: ps))%nat
        by apply List.filter_length_le.
      lia.
    + apply Forall_app. split; [exact Hall|].
      apply List.Forall_forall. intros file Hin.
      destruct (Hnew file Hin) as [_ [Hp [Ho _]]].
      split.
      * now apply String.eqb_eq in Hp.
      * unfold PdfMerger.isOversized in Ho. apply Z.ltb_ge in Ho. exact Ho.
  - exists newFiles. split; [reflexivity|].
    apply List.Forall_forall. intros file Hin.
    destruct (Hnew file Hin) as [Hoff [_ [_ Hfresh]]].
    split; [exists offered; split; [reflexivity | exact Hoff]|].
    apply List.Forall_forall. intros existing Hex.
    destruct (PdfMerger.sameNameAndSize existing file) eqn:Hs; [|reflexivity].
    assert (existsb (fun existingFile =>
                       PdfMerger.sameNameAndSize existingFile file)
                    selectedFiles = true)
      by (apply existsb_exists; eauto).
    congruence.
Qed.

Lemma PdfMerger_selection_stays_within_limits_witness :
  PdfMerger.validSelection
    (snd (PdfMerger.handleFilesUpload [pickedA]
            (Some [pickedA; pickedImage; pickedB])))
  /\ snd (PdfMerger.handleFilesUpload [pickedA]
            (Some [pickedA; pickedImage; pickedB]))
     = [pickedA; pickedB].
Proof.
  split; [|reflexivity].
  apply (PdfMerger_selection_stays_within_limits [pickedA]
           (Some [pickedA; pickedImage; pickedB]) 0).
  split; [unfold PdfMerger.MAX_FILES; simpl; lia|].
  repeat constructor. unfold PdfMerger.MAX_FILE_SIZE_MB. simpl. lia.
Defined.




(** ** An expired job and its result blobs *)

Lemma sweep_step_deletes (o : option StorageId) (v : World) :
  (forall f, o = Some f -> is_Some (files v !! f)) ->
  exists v',
    match o with
    | Some f => storage_delete f
    | None => fun s => (Ok tt, s)
    end v = (Ok tt, v')
    /\ conversions v' = conversions v
    /\ files v' = match o with
                  | Some f => delete f (files v)
                  | None => files v
                  end.
Proof.
  intros H. destruct o as [f|]; [|eauto].
  destruct (H f eq_refl) as [b Hb]. unfold storage_delete. rewrite Hb.
  eexists. split; [reflexivity|]. split; reflexivity.
Qed.

Lemma find_filter_gone (id : ConversionId) (cs : list Conversion) :
  List.find (fun c => Nat.eqb (_id c) id) (List.filter (keepsOthers id) cs)
  = None.
Proof.
  induction cs as [|c cs IH]; simpl; [reflexivity|].
  unfold keepsOthers at 1. destruct (Nat.eqb (_id c) id) eqn:E; simpl.
  - exact IH.
  - now rewrite E.
Qed.

(** The round of the sweep for a job on the table whose blobs are stored
    and distinct: blobs and record are gone afterwards. *)
Lemma cleanupOne_removes (job : Conversion) (w : World) :
  db_get (_id job) w = Some job ->
  List.NoDup (sweptBlobs job) ->
  Forall (fun f => is_Some (files w !! f)) (sweptBlobs job) ->
  exists w',
    cleanupOne job w = (Ok true, w')
    /\ db_get (_id job) w' = None
    /\ Forall (fun f => files w' !! f = None) (sweptBlobs job).
Proof.
  intros Hget Hnd Hstored. unfold cleanupOne, try_catch, bind, ret.
  unfold sweptBlobs in *.
  destruct (sweep_step_deletes (pdfFileId job) w) as [w1 [H1 [Hc1 Hf1]]].
  { intros f Hf. rewrite Hf in Hstored. cbn in Hstored.
    now inversion Hstored. }
  rewrite H1.
  destruct (sweep_step_deletes (docxFileId job) w1) as [w2 [H2 [Hc2 Hf2]]].
  { intros g Hg. rewrite Hf1, Hg in *.
    destruct (pdfFileId job) as [f|].
    - cbn in Hstored, Hnd. inversion Hstored as [|? ? _ Hs]; subst.
      inversion Hs; subst. inversion Hnd as [|? ? Hnotin _]; subst.
      rewrite lookup_delete_ne; [assumption|].
      intros ->. apply Hnotin. now left.
    - cbn in Hstored. now inversion Hstored. }
  rewrite H2. unfold db_delete.
  assert (Hget2 : db_get (_id job) w2 = Some job)
    by (unfold db_get in *; now rewrite Hc2, Hc1).
  rewrite Hget2. eexists. split; [reflexivity|]. split.
  - unfold db_get. cbn [with_conversions conversions].
    apply find_filter_gone.
  - cbn [with_conversions files]. rewrite Hf2, Hf1.
    destruct (pdfFileId job) as [f|], (docxFileId job) as [g|]; cbn;
      repeat constructor;
      rewrite ?lookup_delete_eq; try reflexivity.
    + destruct (decide (g = f)) as [->|Hne];
        [apply lookup_delete_eq|].
      rewrite lookup_delete_ne by congruence. apply lookup_delete_eq.
Qed.

(** A round of the sweep for another job that names none of [job]'s blobs
    leaves [job] and its blobs in place. *)
Lemma cleanupOne_spares (c job : Conversion) (w : World) :
  _id c <> _id job ->
  Forall (fun f => ~ In f (sweptBlobs c)) (sweptBlobs job) ->
  db_get (_id job) w = Some job ->
  Forall (fun f => is_Some (files w !! f)) (sweptBlobs job) ->
  db_get (_id job) (snd (cleanupOne c w)) = Some job
  /\ Forall (fun f => is_Some (files (snd (cleanupOne c w)) !! f))
            (sweptBlobs job).
Proof.
  intros Hid Hdisj Hget Hstored. split.
  - destruct (cleanupOne_table c w) as [deleted [w' [Hrun Htable]]].
    rewrite Hrun. cbn [snd]. unfold db_get in *. destruct deleted.
    + destruct Htable as [_ ->].
      clear -Hid Hget. induction (conversions w) as [|x xs IH];
        simpl in *; [discriminate|].
      destruct (Nat.eqb (_id x) (_id job)) eqn:E.
      * injection Hget as ->. unfold keepsOthers at 1.
        assert (Nat.eqb (_id job) (_id c) = false) as ->
          by (apply Nat.eqb_neq; congruence).
        simpl. now rewrite Nat.eqb_refl.
      * unfold keepsOthers at 1. destruct (Nat.eqb (_id x) (_id c)); simpl.
        -- now apply IH.
        -- rewrite E. now apply IH.
    + now rewrite Htable.
  - apply List.Forall_forall. intros f Hf.
    rewrite cleanupOne_keeps_file.
    + exact (proj1 (List.Forall_forall _ _) Hstored f Hf).
    + intros E. apply (proj1 (List.Forall_forall _ _) Hdisj f Hf).
      unfold sweptBlobs. rewrite E. now left.
    + intros E. apply (proj1 (List.Forall_forall _ _) Hdisj f Hf).
      unfold sweptBlobs. rewrite E. apply in_or_app. right. now left.
Qed.

(** Once a record and a blob are gone, no round of the sweep brings them
    back. *)
Lemma cleanupOne_only_removes (c : Conversion) (w : World)
    (id : ConversionId) (f : StorageId) :
  (db_get id w = None -> db_get id (snd (cleanupOne c w)) = None)
  /\ (files w !! f = None -> files (snd (cleanupOne c w)) !! f = None).
Proof.
  split.
  - intros Hnone.
    destruct (cleanupOne_table c w) as [deleted [w' [Hrun Htable]]].
    rewrite Hrun. cbn [snd]. unfold db_get in *. destruct deleted.
    + destruct Htable as [_ ->].
      clear -Hnone. induction (conversions w) as [|x xs IH];
        simpl in *; [reflexivity|].
      destruct (Nat.eqb (_id x) id) eqn:E; [discriminate|].
      destruct (keepsOthers (_id c) x); simpl; [rewrite E|]; now apply IH.
    + now rewrite Htable.
  - intros Hnone. unfold cleanupOne, try_catch, bind, ret.
    assert (Hstep : forall (o : option StorageId) (v : World),
              files v !! f = None ->
              files (snd (match o with
                          | Some g => storage_delete g
                          | None => fun s => (Ok tt, s)
                          end v)) !! f = None).
    { intros [g|] v Hv; [|exact Hv]. unfold storage_delete.
      destruct (files v !! g); [|exact Hv]. cbn [snd with_files files].
      destruct (decide (g = f)) as [->|Hne];
        [apply lookup_delete_eq | now rewrite lookup_delete_ne]. }
    pose proof (Hstep (pdfFileId c) w Hnone) as H1.
    destruct (match pdfFileId c with
              | Some g => storage_delete g
              | None => fun s => (Ok tt, s)
              end w) as [[[]|e] w1]; cbn [snd] in *; [|exact H1].
    pose proof (Hstep (docxFileId c) w1 H1) as H2.
    destruct (match docxFileId c with
              | Some g => storage_delete g
              | None => fun s => (Ok tt, s)
              end w1) as [[[]|e] w2]; cbn [snd] in *; [|exact H2].
    pose proof (db_delete_files (_id c) w2) as H3.
    destruct (db_delete (_id c) w2) as [[[]|e] w3]; cbn [snd] in *;
      congruence.
Qed.

Lemma cleanupLoop_only_removes (expired : list Conversion) :
  forall (n : nat) (w : World) (id : ConversionId) (blobs : list StorageId),
    db_get id w = None ->
    Forall (fun f => files w !! f = None) blobs ->
    db_get id (snd (cleanupLoop expired n w)) = None
    /\ Forall (fun f => files (snd (cleanupLoop expired n w)) !! f = None)
              blobs.
Proof.
  induction expired as [|c rest IH]; intros n w id blobs Hget Hblobs.
  - split; assumption.
  - cbn [cleanupLoop]. unfold bind.
    destruct (cleanupOne_table c w) as [deleted [w1 [Hrun _]]].
    pose proof (fun f => cleanupOne_only_removes c w id f) as Hone.
    rewrite Hrun in *. cbn [snd] in Hone. apply IH.
    + apply (proj1 (Hone 0%nat) Hget).
    + apply List.Forall_forall. intros f Hf. apply (proj2 (Hone f)).
      exact (proj1 (List.Forall_forall _ _) Hblobs f Hf).
Qed.

Lemma cleanupLoop_removes (job : Conversion) (expired : list Conversion) :
  forall (n : nat) (w : World),
    In job expired ->
    (forall c, In c expired -> _id c = _id job -> c = job) ->
    (forall c, In c expired -> c <> job ->
               Forall (fun f => ~ In f (sweptBlobs c)) (sweptBlobs job)) ->
    List.NoDup (sweptBlobs job) ->
    db_get (_id job) w = Some job ->
    Forall (fun f => is_Some (files w !! f)) (sweptBlobs job) ->
    db_get (_id job) (snd (cleanupLoop expired n w)) = None
    /\ Forall (fun f => files (snd (cleanupLoop expired n w)) !! f = None)
              (sweptBlobs job).
Proof.
  induction expired as [|c rest IH];
    intros n w Hin Hsame Hdisj Hnd Hget Hstored; [destruct Hin|].
  cbn [cleanupLoop]. unfold bind.
  destruct (Nat.eq_dec (_id c) (_id job)) as [Heq|Hne].
  - assert (c = job) as -> by (apply Hsame; [now left | exact Heq]).
    destruct (cleanupOne_removes job w Hget Hnd Hstored)
      as [w1 [Hrun [Hgone Hblobs]]].
    rewrite Hrun. now apply cleanupLoop_only_removes.
  - assert (Hcj : c <> job) by congruence.
    destruct (cleanupOne_spares c job w Hne
                (Hdisj c (or_introl eq_refl) Hcj) Hget Hstored) as [Hg Hs].
    destruct (cleanupOne_table c w) as [deleted [w1 [Hrun _]]].
    rewrite Hrun in *. cbn [snd] in Hg, Hs.
    apply IH; auto.
    + destruct Hin as [->|Hin]; [congruence | exact Hin].
    + intros x Hx. apply Hsame. now right.
    + intros x Hx. apply Hdisj. now right.
Qed.

(** X20: an expired job whose [pdfFileId] and [docxFileId] blobs are
    stored, differ from each other and are named by no other expired job
    is reclaimed by one sweep: afterwards the job cannot be read and its
    two blobs are no longer in storage. *)
Theorem cleanup_removes_expired_job_and_result_blobs :
  forall (ctx : Ctx) (w : World) (job : Conversion),
    uniqueIds w ->
    In job (conversions w) ->
    expiresAt job < now ctx ->
    List.NoDup (sweptBlobs job) ->
    Forall (fun f => is_Some (files w !! f)) (sweptBlobs job) ->
    (forall c, In c (conversions w) -> expiresAt c < now ctx -> c <> job ->
               Forall (fun f => ~ In f (sweptBlobs c)) (sweptBlobs job)) ->
    let after := snd (cleanupExpiredConversions ctx w) in
    getConversion ctx (_id job) after = None
    /\ Forall (fun f => storage_getUrl after f = None) (sweptBlobs job).
Proof.
  intros ctx w job Hids Hin Hexp Hnd Hstored Hdisj after.
  assert (Hget : db_get (_id job) w = Some job).
  { unfold db_get.
    destruct (List.find (fun c => Nat.eqb (_id c) (_id job)) (conversions w))
      as [c|] eqn:Hfind.
    - apply find_some in Hfind as [Hc E]. apply Nat.eqb_eq in E.
      f_equal. now apply (same_id_same_job (conversions w)).
    - exfalso. apply (find_none _ _ Hfind job) in Hin.
      now rewrite Nat.eqb_refl in Hin. }
  set (expired := List.filter (isExpired (now ctx)) (conversions w)).
  destruct (cleanupLoop_removes job expired 0 w) as [Hgone Hblobs]; auto.
  - apply filter_In. split; [exact Hin|]. now apply Z.ltb_lt.
  - intros c Hc E. apply filter_In in Hc as [Hc _].
    now apply (same_id_same_job (conversions w)).
  - intros c Hc Hne. apply filter_In in Hc as [Hc Hx].
    apply Hdisj; auto. now apply Z.ltb_lt in Hx.
  - unfold after, cleanupExpiredConversions, transaction, bind, gets.
    fold expired.
    destruct (cleanupLoop_accounts expired 0 w Hids) as [m [w' [Hrun _]]].
    rewrite Hrun in *. cbn [snd] in *.
    split; [unfold getConversion; now rewrite Hgone|].
    eapply Forall_impl; [exact Hblobs|]. cbn. intros f Hf.
    unfold storage_getUrl. now rewrite Hf.
Qed.

Lemma cleanup_removes_expired_job_and_result_blobs_witness :
  getConversion sweepTime 0%nat
    (snd (cleanupExpiredConversions sweepTime imageJobWorld)) = None
  /\ storage_getUrl (snd (cleanupExpiredConversions sweepTime imageJobWorld))
                    2%nat = None.
Proof.
  destruct (cleanup_removes_expired_job_and_result_blobs sweepTime
              imageJobWorld
              (applyPatch (updateConversionJobFields 2500 (Some 2%nat)
                                                     (Some completed) None)
                          imagePendingJob))
    as [H1 H2].
  - repeat constructor. simpl. tauto.
  - left. reflexivity.
  - reflexivity.
  - repeat constructor. simpl. tauto.
  - repeat constructor. eexists. reflexivity.
  - intros c Hc _ Hne. vm_compute in Hc. destruct Hc as [<-|[]].
    now elim Hne.
  - split; [exact H1|]. now inversion H2.
Defined.
